(** * A recommender for online shopping: the model of [a2.py]

    The development embeds the three database methods of class
    [Recommender] ([recommend_generic], [recommend], [repopulate]) and the
    module-level function [find_similar_curator].

    Conventions of the embedding:
    - customer, item and purchase identifiers, ratings and [k] are Python
      integers: [Z];
    - a Python computation either returns or raises: [outcome];
    - [diff = diff_sum / num_rtings] and the SQL average
      [CAST(SUM(rating) AS float)/COUNT(rating)] are quotients of two
      integers; they are kept as exact rationals [Q] and compared with the
      order of [Q] (the rounding of IEEE doubles is not part of the model);
    - a SQL relation is the list of its rows; a query without [ORDER BY]
      gives the rows in the order of the list, an [ORDER BY] sorts them
      (rows with equal keys in the order the sort leaves them), a [LIMIT k]
      keeps a prefix, and a query on a view defined with [ORDER BY] sees the
      rows in that order;
    - the cursor is driven through [execute]; every statement sent to the
      server is recorded in a log together with whether it succeeded, and a
      statement may fail for reasons the model does not hold (connection,
      locks, ...): these are given by the session, statement by statement;
    - statements take effect as they are sent; the methods never roll back,
      and the abort of the server-side transaction is not modelled. *)

From Stdlib Require Import QArith.
From stdpp Require Import gmap strings list sorting.

Close Scope Q_scope.
Open Scope Z_scope.

(** ** Python outcomes *)

(** The exceptions the code can meet: [pg.Error] (the only one the methods
    catch), and the two the interpreter raises when [None] is subscripted or
    measured, or a list is indexed past its end. *)
Inductive exn : Type :=
  | PgError
  | TypeError
  | IndexError.

Inductive outcome (A : Type) : Type :=
  | Return (a : A)
  | Raise (e : exn).
Arguments Return {A} a.
Arguments Raise {A} e.

Definition obind {A B} (m : outcome A) (f : A -> outcome B) : outcome B :=
  match m with
  | Return a => f a
  | Raise e => Raise e
  end.

#[export] Instance outcome_ret : MRet outcome := fun A a => Return a.
#[export] Instance outcome_bind : MBind outcome := fun A B f m => obind m f.

(** ** The ratings table

    [ratings.py] is imported by [a2.py]; the recommender only uses its
    constructor and two methods.  A row is the vector of one person's
    ratings, one slot per item, [None] where the person has no rating. *)
Abbreviation row := (list (option Z)).

Class RatingsTableOps (T : Type) : Type := {
  (** [RatingsTable(num_people, num_items)] *)
  new_table : Z -> Z -> T;
  (** [t.set_rating(person, item, score)]: the table is mutated in place;
      here the updated table is returned. *)
  set_rating : T -> Z -> Z -> Z -> outcome T;
  (** [t.get_all_ratings(person)]: the person's row, or [None]. *)
  get_all_ratings : T -> Z -> option row
}.

(** Modelled from the spec: class [RatingsTable] of [ratings.py].  A mapping
    from person to a fixed-length row of optional scores; the item-to-slot
    mapping is shared by all rows and never shifts once assigned; a person
    never given to [set_rating] has no row.  A person or an item beyond the
    sizes given to the constructor is taken to be an error. *)
Record SpecTable : Type := {
  num_people : Z;
  num_items : Z;
  item_slot : gmap Z nat;
  rows : gmap Z row
}.

Definition spec_new (n m : Z) : SpecTable :=
  {| num_people := n; num_items := m; item_slot := ∅; rows := ∅ |}.

Definition spec_slot (t : SpecTable) (item : Z) : outcome (nat * gmap Z nat) :=
  match item_slot t !! item with
  | Some j => Return (j, item_slot t)
  | None =>
      let j := size (item_slot t) in
      if bool_decide (Z.of_nat j < num_items t)
      then Return (j, <[item := j]> (item_slot t))
      else Raise IndexError
  end.

Definition spec_row (t : SpecTable) (person : Z) : outcome row :=
  match rows t !! person with
  | Some r => Return r
  | None =>
      if bool_decide (Z.of_nat (size (rows t)) < num_people t)
      then Return (replicate (Z.to_nat (num_items t)) None)
      else Raise IndexError
  end.

Definition spec_set (t : SpecTable) (person item score : Z) : outcome SpecTable :=
  '(j, slots) ← spec_slot t item;
  r ← spec_row t person;
  Return {| num_people := num_people t; num_items := num_items t;
            item_slot := slots;
            rows := <[person := <[j := Some score]> r]> (rows t) |}.

Definition spec_get (t : SpecTable) (person : Z) : option row := rows t !! person.

#[export] Instance SpecTable_ops : RatingsTableOps SpecTable :=
  {| new_table := spec_new; set_rating := spec_set; get_all_ratings := spec_get |}.

(** ** [find_similar_curator] *)

(** [min_diff] starts as [float('inf')]: [None] stands for infinity. *)
Definition float_lt (diff : Q) (min_diff : option Q) : bool :=
  match min_diff with
  | None => true
  | Some m => negb (Qle_bool m diff)
  end.

(** [cust_rating[i]]: subscripting [None] raises [TypeError], an index past
    the end raises [IndexError]. *)
Definition subscript (r : option row) (i : nat) : outcome (option Z) :=
  match r with
  | None => Raise TypeError
  | Some l =>
      match l !! i with
      | Some x => Return x
      | None => Raise IndexError
      end
  end.

(** The inner loop [for i in range(len(cur_rating))], entered at index [i]
    with the slots of [cur_rating] from [i] on.  [and] short-circuits:
    [cust_rating[i]] is only read where [cur_rating[i]] is a score. *)
Fixpoint rating_loop (cur_rating : row) (cust_rating : option row) (i : nat)
    (diff_sum num_rtings : Z) : outcome (Z * Z) :=
  match cur_rating with
  | [] => Return (diff_sum, num_rtings)
  | None :: rest => rating_loop rest cust_rating (S i) diff_sum num_rtings
  | Some a :: rest =>
      x ← subscript cust_rating i;
      match x with
      | None => rating_loop rest cust_rating (S i) diff_sum num_rtings
      | Some b =>
          rating_loop rest cust_rating (S i)
            (diff_sum + Z.abs (a - b)) (num_rtings + 1)
      end
  end.

(** The outer loop [for curator in curator_ids]. *)
Fixpoint curator_loop {T} `{RatingsTableOps T} (ratings : T)
    (curator_ids : list Z) (cust_rating : option row)
    (min_curator : option Z) (min_diff : option Q) : outcome (option Z) :=
  match curator_ids with
  | [] => Return min_curator
  | curator :: rest =>
      match get_all_ratings ratings curator with
      | None => Raise TypeError
      | Some cur_rating =>
          '(diff_sum, num_rtings) ← rating_loop cur_rating cust_rating 0 0 0;
          if bool_decide (num_rtings ≠ 0) then
            let diff := Qmake diff_sum (Z.to_pos num_rtings) in
            if float_lt diff min_diff
            then curator_loop ratings rest cust_rating (Some curator) (Some diff)
            else curator_loop ratings rest cust_rating min_curator min_diff
          else curator_loop ratings rest cust_rating min_curator min_diff
      end
  end.

Definition find_similar_curator {T} `{RatingsTableOps T} (ratings : T)
    (curator_ids : list Z) (cust_id : Z) : outcome (option Z) :=
  let cust_rating := get_all_ratings ratings cust_id in
  curator_loop ratings curator_ids cust_rating None None.

(** What the docstring and the claims speak of: the absolute differences at
    the slots both people rated, and their mean. *)
Fixpoint abs_diffs (cur cust : row) : list Z :=
  match cur, cust with
  | Some a :: cur', Some b :: cust' => Z.abs (a - b) :: abs_diffs cur' cust'
  | _ :: cur', _ :: cust' => abs_diffs cur' cust'
  | _, _ => []
  end.

Definition sum_scores (l : list Z) : Z := foldr Z.add 0 l.

Definition mean (l : list Z) : Q := Qmake (sum_scores l) (Pos.of_nat (length l)).

(** The differences between curator [c] and the customer in table
    [ratings]; empty when they have no rated item in common. *)
Definition shared {T} `{RatingsTableOps T} (ratings : T) (cust_id c : Z) : list Z :=
  match get_all_ratings ratings c, get_all_ratings ratings cust_id with
  | Some cur_rating, Some cust_rating => abs_diffs cur_rating cust_rating
  | _, _ => []
  end.

(** The preconditions of [find_similar_curator]: the customer and every
    curator have a row; the rows of one table have one length. *)
Definition table_ok {T} `{RatingsTableOps T} (ratings : T)
    (curator_ids : list Z) (cust_id : Z) : bool :=
  match get_all_ratings ratings cust_id with
  | None => false
  | Some cust_rating =>
      forallb (fun c =>
        match get_all_ratings ratings c with
        | None => false
        | Some cur_rating => bool_decide (length cur_rating = length cust_rating)
        end) curator_ids
  end.

(** ** Relations *)

(** Modelled from the spec: the relations of [schema.sql], which is not part
    of the sources, each with the columns the queries name; [q3] is the
    relation of the curators that the query of [repopulate] joins with
    [Review]. *)
Record Tables : Type := {
  PopularItems : list Z;                 (* IID *)
  Review : list (Z * Z * Z);             (* CID, IID, rating *)
  DefinitiveRatings : list (Z * Z * Z);  (* CID, IID, rating *)
  Purchase : list (Z * Z);               (* PID, CID *)
  LineItem : list (Z * Z * Z);           (* PID, IID, quantity *)
  Item : list (Z * Z);                   (* IID, category *)
  q3 : list Z                            (* CID: the curators *)
}.

Definition cid (r : Z * Z * Z) : Z := r.1.1.
Definition iid (r : Z * Z * Z) : Z := r.1.2.
Definition rating (r : Z * Z * Z) : Z := r.2.

#[export] Instance Qle_dec (x y : Q) : Decision (x <= y)%Q :=
  match Qlt_le_dec y x with
  | left H => right (Qlt_not_le _ _ H)
  | right H => left H
  end.

(** *** Operators shared by the queries, over any ordered score *)
Section Scores.
Context {Score : Type} (le : relation Score) `{!forall x y, Decision (le x y)}.

(** [MIN(score)]: [None] (SQL [NULL]) over no rows. *)
Definition sql_min (scores : list Score) : option Score :=
  foldr (fun x acc =>
           match acc with
           | None => Some x
           | Some m => if decide (le x m) then Some x else Some m
           end) None scores.

(** [score >= v], which no row satisfies when [v] is [NULL]. *)
Definition at_least (v : option Score) (r : Z * Score) : Prop :=
  match v with
  | None => False
  | Some m => le m r.2
  end.

#[export] Instance at_least_dec v r : Decision (at_least v r).
Proof. destruct v; simpl; apply _. Defined.

(** [ORDER BY score DESC] *)
Definition by_score : relation (Z * Score) := fun x y => le y.2 x.2.

(** [ORDER BY score DESC, IID ASC] *)
Definition by_score_iid : relation (Z * Score) :=
  fun x y => le y.2 x.2 /\ (le x.2 y.2 -> x.1 ≤ y.1).

#[export] Instance by_score_dec x y : Decision (by_score x y).
Proof. unfold by_score; apply _. Defined.

#[export] Instance by_score_iid_dec x y : Decision (by_score_iid x y).
Proof. unfold by_score_iid; apply _. Defined.

(** [SELECT MIN(score) FROM (SELECT * FROM view LIMIT k)]; the server
    rejects a negative [LIMIT]. *)
Definition min_of_first (k : Z) (view : list (Z * Score)) : option (option Score) :=
  if bool_decide (k < 0) then None
  else Some (sql_min (take (Z.to_nat k) view).*2).

(** [SELECT COUNT(IID) FROM view WHERE score >= v] *)
Definition count_at_least (v : option Score) (view : list (Z * Score)) : Z :=
  Z.of_nat (length (filter (at_least v) view)).

(** [SELECT IID FROM view LIMIT k] *)
Definition first_k (k : Z) (view : list (Z * Score)) : list Z :=
  (take (Z.to_nat k) view).*1.

(** [SELECT IID FROM view ORDER BY score DESC, IID ASC LIMIT k] *)
Definition first_k_by_iid (k : Z) (view : list (Z * Score)) : list Z :=
  (take (Z.to_nat k) (merge_sort by_score_iid view)).*1.

(** *** The selection policy, in the words of the spec (section 4.3)

    1. a candidate list of at most [k] entries is returned whole;
    2. otherwise [v] is the minimum score among the first [k] entries of
       the list ranked by descending score;
    3. the entries of score at least [v] are counted;
    4. when there are at most [k] of them, exactly they are returned;
    5. otherwise the candidates are ranked by score descending, then item
       ID ascending, and the first [k] are taken. *)
Definition boundary (k : Z) (ranked : list (Z * Score)) : option Score :=
  sql_min (take (Z.to_nat k) ranked).*2.

Definition qualifying (k : Z) (ranked : list (Z * Score)) : list (Z * Score) :=
  filter (at_least (boundary k ranked)) ranked.

Definition top_k_policy (k : Z) (ranked : list (Z * Score)) : list Z :=
  if bool_decide (Z.of_nat (length ranked) ≤ k) then ranked.*1
  else if bool_decide (Z.of_nat (length (qualifying k ranked)) ≤ k)
       then (qualifying k ranked).*1
       else (take (Z.to_nat k) (merge_sort by_score_iid ranked)).*1.
End Scores.

(** *** The views *)

Definition average (ratings : list Z) : Q := mean ratings.

(** [items NATURAL JOIN reviews]: the reviews of the listed items. *)
Definition reviews_of (items : list Z) (reviews : list (Z * Z * Z)) : list (Z * Z * Z) :=
  p ← items; filter (fun r => iid r = p) reviews.

(** [SELECT IID, CAST(SUM(rating) AS float)/COUNT(rating) as average
    FROM items NATURAL JOIN reviews GROUP BY IID ORDER BY average DESC] *)
Definition averages_of (items : list Z) (reviews : list (Z * Z * Z)) : list (Z * Q) :=
  let joined := reviews_of items reviews in
  merge_sort (by_score Qle)
    ((fun i => (i, average (rating <$> filter (fun r => iid r = i) joined)))
       <$> remove_dups (iid <$> joined)).

(** [CREATE VIEW ratingAverage AS SELECT IID,
    CAST(SUM(rating) AS float)/COUNT(rating) as average
    FROM PopularItems NATURAL JOIN Review GROUP BY IID ORDER BY average DESC] *)
Definition ratingAverage (t : Tables) : list (Z * Q) :=
  averages_of (PopularItems t) (Review t).

(** [CREATE VIEW custRating AS SELECT CID, IID, rating
    FROM Review NATURAL JOIN PopularItems WHERE CID = cust] *)
Definition custRating (cust : Z) (t : Tables) : list (Z * Z * Z) :=
  r ← Review t; p ← PopularItems t;
  if bool_decide (iid r = p /\ cid r = cust) then [r] else [].

(** [CREATE VIEW custIID AS SELECT IID FROM Purchase NATURAL JOIN LineItem
    WHERE CID = cust] *)
Definition custIID (cust : Z) (t : Tables) : list Z :=
  p ← Purchase t; l ← LineItem t;
  if bool_decide (p.1 = l.1.1 /\ p.2 = cust) then [l.1.2] else [].

(** [CREATE VIEW itemLeft AS SELECT DISTINCT IID, rating
    FROM DefinitiveRatings AS t1 WHERE NOT EXISTS (SELECT * FROM custIID AS t2
    WHERE t1.IID = t2.IID) AND CID = curator ORDER BY rating DESC].
    [curator] may be [None], sent as [NULL]: [CID = NULL] holds of no row. *)
Definition itemLeft (cust : Z) (curator : option Z) (t : Tables) : list (Z * Z) :=
  merge_sort (by_score Z.le)
    (remove_dups
       ((fun r => (iid r, rating r)) <$>
          filter (fun r => (iid r ∉ custIID cust t) /\ Some (cid r) = curator)
            (DefinitiveRatings t))).

(** [ORDER BY IID] over rows (IID, quantity) *)
Definition by_iid : relation (Z * Z) := fun x y => x.1 ≤ y.1.

#[export] Instance by_iid_dec x y : Decision (by_iid x y).
Proof. unfold by_iid; apply _. Defined.

(** [ORDER BY quantity DESC] over rows (IID, quantity, category) *)
Definition by_quantity : relation (Z * Z * Z) := fun x y => y.1.2 ≤ x.1.2.

#[export] Instance by_quantity_dec x y : Decision (by_quantity x y).
Proof. unfold by_quantity; apply _. Defined.

Definition quantity (l : Z * Z * Z) : Z := l.2.

(** [CREATE VIEW totalNumber AS SELECT IID, SUM(quantity) AS quantity
    FROM LineItem GROUP BY IID ORDER BY IID] *)
Definition totalNumber (t : Tables) : list (Z * Z) :=
  merge_sort by_iid
    ((fun i => (i, sum_scores (quantity <$> filter (fun l => iid l = i) (LineItem t))))
       <$> remove_dups (iid <$> LineItem t)).

(** [CREATE VIEW popular AS SELECT IID FROM (SELECT IID, category,
    row_number() over (partition by category ORDER BY quantity DESC) AS rn
    FROM totalNumber NATURAL JOIN Item) AS t1 WHERE rn <= 2]: the rows are
    (IID, quantity, category). *)
Definition sold_items (t : Tables) : list (Z * Z * Z) :=
  n ← totalNumber t; i ← Item t;
  if bool_decide (n.1 = i.1) then [(n.1, n.2, i.2)] else [].

Definition popular (t : Tables) : list Z :=
  let joined := sold_items t in
  c ← remove_dups ((fun r => r.2) <$> joined);
  (fun r => r.1.1) <$>
    take 2 (merge_sort by_quantity (filter (fun r => r.2 = c) joined)).

(** [CREATE VIEW definitive AS SELECT CID, IID, rating
    FROM (q3 NATURAL JOIN Review) NATURAL JOIN PopularItems] *)
Definition definitive (t : Tables) : list (Z * Z * Z) :=
  c ← q3 t; r ← Review t; p ← PopularItems t;
  if bool_decide (c = cid r /\ iid r = p) then [r] else [].

(** ** The database session *)

(** The tables, the constraints of table [DefinitiveRatings], the views that
    exist, the statements sent so far (latest first) each with its success,
    and, for every statement by its position, whether the server fails it
    for a reason outside the model (connection, locks, other constraints). *)
Record World : Type := {
  tables : Tables;
  constraints : gset string;
  views : gset string;
  log : list (string * bool);
  faults : nat -> bool
}.

Definition logged (text : string) (ok : bool) (w : World) : World :=
  {| tables := tables w; constraints := constraints w; views := views w;
     log := (text, ok) :: log w; faults := faults w |}.

Definition set_tables (t : Tables) (w : World) : World :=
  {| tables := t; constraints := constraints w; views := views w;
     log := log w; faults := faults w |}.

Definition set_constraints (c : gset string) (w : World) : World :=
  {| tables := tables w; constraints := c; views := views w;
     log := log w; faults := faults w |}.

Definition set_views (v : gset string) (w : World) : World :=
  {| tables := tables w; constraints := constraints w; views := v;
     log := log w; faults := faults w |}.

Record M (A : Type) : Type := mkM { run : World -> outcome A * World }.
Arguments mkM {A} run.
Arguments run {A} m w.

#[export] Instance M_ret : MRet M := fun A a => mkM (fun w => (Return a, w)).
#[export] Instance M_bind : MBind M := fun A B f m =>
  mkM (fun w =>
         match run m w with
         | (Return a, w') => run (f a) w'
         | (Raise e, w') => (Raise e, w')
         end).

(** A Python computation between two statements. *)
Definition lift {A} (o : outcome A) : M A := mkM (fun w => (o, w)).

(** [cur.execute(text, params)]: [sem] is the effect of the statement, [None]
    where the server rejects it.  A failed statement raises [pg.Error] and
    leaves tables, views and constraints as they were. *)
Definition execute {A} (text : string) (sem : World -> option (A * World)) : M A :=
  mkM (fun w =>
         if faults w (length (log w)) then (Raise PgError, logged text false w)
         else match sem w with
              | None => (Raise PgError, logged text false w)
              | Some (a, w') => (Return a, logged text true w')
              end).

(** A [SELECT] and the rows (or the value) fetched from the cursor. *)
Definition query {A} (text : string) (f : Tables -> A) : M A :=
  execute text (fun w => Some (f (tables w), w)).

Definition query_checked {A} (text : string) (f : Tables -> option A) : M A :=
  execute text (fun w => a ← f (tables w); Some (a, w)).

(** [CREATE VIEW name AS ...] fails when relation [name] exists. *)
Definition create_view (text name : string) : M () :=
  execute text (fun w =>
    if bool_decide (name ∈ views w) then None
    else Some ((), set_views ({[name]} ∪ views w) w)).

(** [DROP VIEW IF EXISTS name]; the methods drop a view only after the
    views defined on it, so dependencies between views never reject it. *)
Definition drop_view_if_exists (name : string) : M () :=
  execute ("DROP VIEW IF EXISTS " +:+ name +:+ ";")
    (fun w => Some ((), set_views (views w ∖ {[name]}) w)).

(** [try: body except pg.Error: return handler] *)
Definition try_except_pg {A} (body : M A) (handler : A) : M A :=
  mkM (fun w =>
         match run body w with
         | (Raise PgError, w') => (Return handler, w')
         | r => r
         end).

(** ** [Recommender.recommend_generic]

    [self.db_conn.cursor()] and [cur.close()] send nothing to the server and
    are left out.  [check == []] compares the cursor with a list and is
    always false, so the early [return results] is never taken; likewise
    [iids is not None] always holds. *)

(** The statements of [recommend_generic], as sent. *)
Definition count_popular : string := "SELECT COUNT(IID) FROM PopularItems;".
Definition select_popular : string := "SELECT IID FROM PopularItems;".
Definition select_ratingAverage : string := "SELECT * FROM ratingAverage;".
Definition min_average : string :=
  "SELECT MIN(average) FROM (SELECT * FROM ratingAverage LIMIT %s) AS t1;".
Definition count_average : string := "SELECT COUNT(IID) FROM ratingAverage WHERE average >= %s;".
Definition first_average : string := "SELECT IID FROM ratingAverage LIMIT %s;".
Definition first_average_by_iid : string :=
  "SELECT IID FROM ratingAverage ORDER BY average DESC, IID ASC LIMIT %s;".
Definition create_ratingAverage : string :=
  "CREATE VIEW ratingAverage AS SELECT IID, CAST(SUM(rating) AS float)/COUNT(rating) as average FROM PopularItems NATURAL JOIN Review GROUP BY IID ORDER BY average DESC;".

(** The selection among the ranked averages (the two [SELECT]s on
    [MIN(average)] and [COUNT(IID)], then one of the two [LIMIT] queries). *)
Definition generic_select (k : Z) : M (list Z) :=
  min_a ← query_checked min_average (fun t => min_of_first Qle k (ratingAverage t));
  n ← query count_average (fun t => count_at_least Qle min_a (ratingAverage t));
  if bool_decide (n ≤ k) then
    query first_average (fun t => first_k k (ratingAverage t))
  else
    query first_average_by_iid (fun t => first_k_by_iid Qle k (ratingAverage t)).

Definition recommend_generic_body (k : Z) : M (option (list Z)) :=
  popular_number ← query count_popular
    (fun t => Z.of_nat (length (PopularItems t)));
  iids ← (if bool_decide (popular_number ≤ k) then
            query select_popular PopularItems
          else
            create_view create_ratingAverage "ratingAverage";;
            query select_ratingAverage ratingAverage;;
            generic_select k);
  drop_view_if_exists "ratingAverage";;
  mret (Some iids).

Definition recommend_generic (k : Z) : M (option (list Z)) :=
  try_except_pg (recommend_generic_body k) None.

(** ** [Recommender.recommend] *)

(** The statements of [recommend], as sent. *)
Definition count_definitive : string := "SELECT COUNT(DISTINCT CID) as numCID,COUNT(DISTINCT IID) as numIID FROM DefinitiveRatings;".
Definition select_custRating : string := "SELECT * FROM custRating;".
Definition select_definitive : string := "SELECT * FROM DefinitiveRatings;".
Definition select_curators : string := "SELECT DISTINCT CID FROM DefinitiveRatings;".
Definition min_rating : string := "SELECT MIN(rating) FROM (SELECT * FROM itemLeft LIMIT %s) AS t1;".
Definition count_rating : string := "SELECT COUNT(IID) FROM itemLeft WHERE rating >= %s;".
Definition create_result_first : string := "CREATE VIEW result AS SELECT IID FROM itemLeft LIMIT %s;".
Definition create_result_by_iid : string :=
  "CREATE VIEW result AS SELECT IID FROM itemLeft ORDER BY rating DESC, IID LIMIT %s;".
Definition count_result : string := "SELECT COUNT(IID) FROM result;".
Definition select_result : string := "SELECT IID FROM result;".
Definition create_custRating : string :=
  "CREATE VIEW custRating AS SELECT CID, IID, rating FROM Review NATURAL JOIN PopularItems WHERE CID = %s;".
Definition create_custIID : string :=
  "CREATE VIEW custIID AS SELECT IID FROM Purchase NATURAL JOIN LineItem WHERE CID=%s;".
Definition create_itemLeft : string :=
  "CREATE VIEW itemLeft AS SELECT DISTINCT IID, rating FROM DefinitiveRatings AS t1 WHERE NOT EXISTS (SELECT * FROM custIID AS t2 WHERE t1.IID = t2.IID) AND CID=%s ORDER BY rating DESC;".

(** The selection among the curator's ranked ratings: it ends with the
    creation of view [result]; the value is the query that view stands for.
    [k] is not negative where [result] is created, the statement on
    [MIN(rating)] having succeeded. *)
Definition recommend_select (cust : Z) (curator : option Z) (k : Z)
    : M (Tables -> list Z) :=
  min_r ← query_checked min_rating
    (fun t => min_of_first Z.le k (itemLeft cust curator t));
  n ← query count_rating
    (fun t => count_at_least Z.le min_r (itemLeft cust curator t));
  if bool_decide (n ≤ k) then
    create_view create_result_first "result";;
    mret (fun t => first_k k (itemLeft cust curator t))
  else
    create_view create_result_by_iid "result";;
    mret (fun t => first_k_by_iid Z.le k (itemLeft cust curator t)).

Definition drop_recommend_views : M () :=
  drop_view_if_exists "result";;
  drop_view_if_exists "itemLeft";;
  drop_view_if_exists "custIID";;
  drop_view_if_exists "custRating".

Section Recommend.
Context {T : Type} `{!RatingsTableOps T}.

(** [for r in rows: t.set_rating(r[0], r[1], r[2])] *)
Fixpoint set_ratings (t : T) (rs : list (Z * Z * Z)) : outcome T :=
  match rs with
  | [] => Return t
  | r :: rest => t' ← set_rating t (cid r) (iid r) (rating r); set_ratings t' rest
  end.

Definition distinct_cids (t : Tables) : list Z := remove_dups (cid <$> DefinitiveRatings t).
Definition distinct_iids (t : Tables) : list Z := remove_dups (iid <$> DefinitiveRatings t).

(** [cust_ratings is None] never holds of a cursor: that early return to
    [recommend_generic] is never taken. *)
Definition recommend_body (cust k : Z) : M (option (list Z)) :=
  x ← query count_definitive
    (fun t => (Z.of_nat (length (distinct_cids t)), Z.of_nat (length (distinct_iids t))));
  let num1 := x.1 + 1 in
  let num2 := x.2 in
  let t := new_table num1 num2 in
  create_view create_custRating "custRating";;
  cust_ratings ← query select_custRating (custRating cust);
  t ← lift (set_ratings t cust_ratings);
  raters ← query select_definitive DefinitiveRatings;
  t ← lift (set_ratings t raters);
  curators ← query select_curators distinct_cids;
  curator ← lift (find_similar_curator t curators cust);
  create_view create_custIID "custIID";;
  create_view create_itemLeft "itemLeft";;
  result_view ← recommend_select cust curator k;
  item_num ← query count_result (fun t => Z.of_nat (length (result_view t)));
  if bool_decide (curator = None) || bool_decide (item_num = 0) then
    drop_recommend_views;;
    recommend_generic k
  else
    result ← query select_result result_view;
    drop_recommend_views;;
    mret (Some result).

Definition recommend (cust k : Z) : M (option (list Z)) :=
  try_except_pg (recommend_body cust k) None.

(** The curator the matcher gives for [cust] over tables [t]: the table is
    filled as in [recommend_body], then searched. *)
Definition similar_curator (cust : Z) (t : Tables) : outcome (option Z) :=
  let num1 := Z.of_nat (length (distinct_cids t)) + 1 in
  let num2 := Z.of_nat (length (distinct_iids t)) in
  tb ← set_ratings (new_table num1 num2) (custRating cust t);
  tb ← set_ratings tb (DefinitiveRatings t);
  find_similar_curator tb (distinct_cids t) cust.
End Recommend.

(** ** [Recommender.repopulate] *)

Definition with_PopularItems (l : list Z) (t : Tables) : Tables :=
  {| PopularItems := l; Review := Review t; DefinitiveRatings := DefinitiveRatings t;
     Purchase := Purchase t; LineItem := LineItem t; Item := Item t; q3 := q3 t |}.

Definition with_DefinitiveRatings (l : list (Z * Z * Z)) (t : Tables) : Tables :=
  {| PopularItems := PopularItems t; Review := Review t; DefinitiveRatings := l;
     Purchase := Purchase t; LineItem := LineItem t; Item := Item t; q3 := q3 t |}.

(** A statement that rewrites the tables. *)
Definition update (text : string) (f : Tables -> Tables) : M () :=
  execute text (fun w => Some ((), set_tables (f (tables w)) w)).

Definition cid_fkey : string := "definitiveratings_cid_fkey".

(** [ALTER TABLE DefinitiveRatings DROP CONSTRAINT name], written without
    [IF EXISTS]: the server rejects it when the table has no such
    constraint. *)
Definition drop_constraint (text name : string) : M () :=
  execute text (fun w =>
    if bool_decide (name ∈ constraints w)
    then Some ((), set_constraints (constraints w ∖ {[name]}) w)
    else None).

(** [self.db_conn.commit()] *)
Definition commit : M () := execute "COMMIT" (fun w => Some ((), w)).

(** The constraint name is quoted in the source text of the [ALTER TABLE]
    statement; the quotes are left out of the logged text. *)
Definition repopulate_body : M () :=
  update "DELETE FROM DefinitiveRatings;" (with_DefinitiveRatings []);;
  update "DELETE FROM PopularItems;" (with_PopularItems []);;
  create_view
    "CREATE VIEW totalNumber AS SELECT IID, SUM(quantity) AS quantity FROM LineItem GROUP BY IID ORDER BY IID;"
    "totalNumber";;
  create_view
    "CREATE VIEW popular AS SELECT IID FROM (SELECT IID, category, row_number() over (partition by category ORDER BY quantity DESC) AS rn FROM totalNumber NATURAL JOIN Item) AS t1 WHERE rn <= 2;"
    "popular";;
  update "INSERT INTO PopularItems SELECT IID FROM popular;"
    (fun t => with_PopularItems (PopularItems t ++ popular t) t);;
  create_view
    "CREATE VIEW definitive AS SELECT CID, IID, rating FROM (q3 NATURAL JOIN Review) NATURAL JOIN PopularItems;"
    "definitive";;
  drop_constraint
    "ALTER TABLE DefinitiveRatings DROP CONSTRAINT definitiveratings_cid_fkey;"
    cid_fkey;;
  update "INSERT INTO DefinitiveRatings SELECT * FROM definitive;"
    (fun t => with_DefinitiveRatings (DefinitiveRatings t ++ definitive t) t);;
  drop_view_if_exists "popular";;
  drop_view_if_exists "totalNumber";;
  drop_view_if_exists "definitive";;
  commit.

Definition repopulate : M Z :=
  try_except_pg (repopulate_body;; mret 0) (-1).

(** ** Calls and sessions *)

(** The outcome of a call and the statements it sent (earliest first). *)
Definition result_of {A} (m : M A) (w : World) : outcome A := (run m w).1.
Definition sent {A} (m : M A) (w : World) : list (string * bool) :=
  reverse (take (length (log (run m w).2) - length (log w)) (log (run m w).2)).

(** A new session on tables [t]: no view, the foreign key of
    [DefinitiveRatings] in place, no statement failing. *)
Definition no_faults : nat -> bool := fun _ => false.

Definition start (t : Tables) : World :=
  {| tables := t; constraints := {[cid_fkey]}; views := ∅; log := []; faults := no_faults |}.

(** A small shop before its first [repopulate]: curator 3, customers 7 and
    8, items 1 and 2 of category 50 and item 4 of category 60. *)

Definition shop : Tables :=
  {| PopularItems := [];
     Review := [(3, 1, 4); (3, 2, 3); (7, 2, 5); (8, 2, 5); (7, 1, 4)];
     DefinitiveRatings := [];
     Purchase := [(100, 7); (101, 8)];
     LineItem := [(100, 1, 2); (100, 2, 1); (101, 2, 4); (101, 4, 1)];
     Item := [(1, 50); (2, 50); (4, 60)];
     q3 := [3] |}.

(** ** What the claims speak of *)

(** Curator [c] has a row, as long as the customer's. *)
Definition has_row {T} `{!RatingsTableOps T} (ratings : T) (cust_rating : row)
    (c : Z) : Prop :=
  exists r, get_all_ratings ratings c = Some r /\ length r = length cust_rating.


(** The table of the examples of the spec: customer 5 rated items 10 and 20
    with 5 and 3; curator 1 (A) rated them 5 and 3, curator 2 (B) rated
    both 1, curator 4 (C) rated item 30 only. *)
Definition example_table : SpecTable :=
  match set_ratings (spec_new 4 3)
          [(5, 10, 5); (5, 20, 3); (1, 10, 5); (1, 20, 3);
           (2, 10, 1); (2, 20, 1); (4, 30, 2)] with
  | Return t => t
  | Raise _ => spec_new 4 3
  end.

(** The snapshot [repopulate] leaves for [shop], and a session on it. *)
Definition shop_snapshot : Tables :=
  with_DefinitiveRatings [(3, 1, 4); (3, 2, 3)] (with_PopularItems [2; 1; 4] shop).

Definition shop_session : World := start shop_snapshot.



(** Two popular items and no review at all. *)
Definition unrated_shop : Tables :=
  {| PopularItems := [1; 2]; Review := []; DefinitiveRatings := [];
     Purchase := []; LineItem := []; Item := [(1, 50); (2, 50)]; q3 := [] |}.


(** No statement fails for a reason outside the model. *)
Definition quiet (w : World) : Prop := forall n, faults w n = false.

(** The outcome and the final session of a call satisfy [Q]. *)
Definition wp {A} (m : M A) (Q : outcome A -> World -> Prop) (w : World) : Prop :=
  Q (run m w).1 (run m w).2.

(** The views [recommend] and [recommend_generic] create are not there. *)
Definition fresh_views (w : World) : Prop :=
  ("custRating" ∉ views w) /\ ("custIID" ∉ views w) /\ ("itemLeft" ∉ views w) /\
  ("result" ∉ views w) /\ ("ratingAverage" ∉ views w).

(** The candidates a call chooses among: for [recommend_generic] all the
    popular items when they are at most [k], the rated popular items
    otherwise; for [recommend] the items the matched curator rated and the
    customer has not bought, or, when there is no such curator or item, the
    candidates of [recommend_generic]. *)
Definition generic_candidates (k : Z) (t : Tables) : list Z :=
  if bool_decide (Z.of_nat (length (PopularItems t)) ≤ k) then PopularItems t
  else (ratingAverage t).*1.

Definition recommend_candidates {T} `{!RatingsTableOps T} (cust k : Z) (t : Tables)
    : list Z :=
  match similar_curator cust t with
  | Return (Some c) =>
      if bool_decide (itemLeft cust (Some c) t = []) then generic_candidates k t
      else (itemLeft cust (Some c) t).*1
  | _ => generic_candidates k t
  end.

(** At most [k] items, and fewer than [k] only when the candidates hold
    fewer than [k] distinct items. *)
Definition at_most (k : Z) (candidates l : list Z) : Prop :=
  Z.of_nat (length l) ≤ k /\
  (Z.of_nat (length l) < k -> Z.of_nat (length (remove_dups candidates)) < k).

(** A statement of the list failed. *)
Definition statement_failed (entries : list (string * bool)) : Prop :=
  false ∈ entries.*2.

(** The statements [recommend_generic] sends. *)
Definition generic_statements : list string :=
  [count_popular; select_popular; create_ratingAverage; select_ratingAverage;
   min_average; count_average; first_average; first_average_by_iid;
   "DROP VIEW IF EXISTS ratingAverage;"].

(** The statements sent while a view exists: from its creation to the
    [DROP VIEW] that removes it, included (a failed [DROP VIEW] removes
    nothing).  [recommend_generic] also sends its [DROP VIEW] where it has
    created no view, so that statement is not listed for it. *)
Definition after_ratingAverage : list string :=
  [select_ratingAverage; min_average; count_average; first_average;
   first_average_by_iid].

Definition after_result : list string :=
  [count_result; select_result; "DROP VIEW IF EXISTS result;"].

Definition after_itemLeft : list string :=
  [min_rating; count_rating; create_result_first; create_result_by_iid;
   "DROP VIEW IF EXISTS itemLeft;"] ++ after_result.

Definition after_custIID : list string :=
  [create_itemLeft; "DROP VIEW IF EXISTS custIID;"] ++ after_itemLeft.

Definition after_custRating : list string :=
  [select_custRating; select_definitive; select_curators; create_custIID;
   "DROP VIEW IF EXISTS custRating;"] ++ after_custIID.

(** The statement a session sent last, when it failed. *)
Definition last_failed (w : World) : option string :=
  match log w with
  | (text, false) :: _ => Some text
  | _ => None
  end.

(** A session in which only the statement at position [n] fails. *)
Definition fail_at (n : nat) (t : Tables) : World :=
  {| tables := t; constraints := {[cid_fkey]}; views := ∅; log := [];
     faults := fun i => bool_decide (i = n) |}.

(** ** Further notions, for the properties beyond the claims *)

(** Curator [c] has a row with a score in some slot. *)
Definition has_rating {T} `{!RatingsTableOps T} (ratings : T) (c : Z) : Prop :=
  match get_all_ratings ratings c with
  | Some r => Exists is_Some r
  | None => False
  end.

(** The list [recommend_generic] computes over tables [t]: all the popular
    items when they are at most [k], the selection among the ranked averages
    otherwise. *)
Definition generic_list (k : Z) (t : Tables) : list Z :=
  if bool_decide (Z.of_nat (length (PopularItems t)) ≤ k) then PopularItems t
  else top_k_policy Qle k (ratingAverage t).

(** The list [recommend] computes over tables [t]: the selection among the
    matched curator's ranked ratings, or the list of [recommend_generic]
    when there is no curator or the selection is empty. *)
Definition recommend_list {T} `{!RatingsTableOps T} (cust k : Z) (t : Tables)
    : outcome (list Z) :=
  curator ← similar_curator cust t;
  let result := top_k_policy Z.le k (itemLeft cust curator t) in
  Return (if bool_decide (curator = None) || bool_decide (result = [])
          then generic_list k t else result).




(** * Properties *)

(** ** The matcher *)

(** Two rows share a rated item exactly when some slot holds a score in
    both. *)
Lemma abs_diffs_nonempty (cur cust : row) :
  abs_diffs cur cust ≠ [] <->
  exists i a b, cur !! i = Some (Some a) /\ cust !! i = Some (Some b).
Proof.
  revert cust. induction cur as [|x cur IH]; intros cust.
  - simpl. split; [done|]. intros (i & a & b & H & _). by destruct i.
  - destruct cust as [|y cust].
    + simpl. destruct x; (split; [done|]); intros (i & a & b & _ & H); by destruct i.
    + destruct x as [a|], y as [b|]; simpl.
      * split; [|done]. intros _. by exists 0%nat, a, b.
      * rewrite IH. split.
        -- intros (i & a' & b' & H1 & H2). by exists (S i), a', b'.
        -- intros (i & a' & b' & H1 & H2). destruct i; [done|]. by exists i, a', b'.
      * rewrite IH. split.
        -- intros (i & a' & b' & H1 & H2). by exists (S i), a', b'.
        -- intros (i & a' & b' & H1 & H2). destruct i; [done|]. by exists i, a', b'.
      * rewrite IH. split.
        -- intros (i & a' & b' & H1 & H2). by exists (S i), a', b'.
        -- intros (i & a' & b' & H1 & H2). destruct i; [done|]. by exists i, a', b'.
Qed.

(** The inner loop adds up the differences of the shared slots and counts
    them; it cannot fail when the customer's row is as long as the rest of
    the curator's. *)
Lemma rating_loop_shared (cur cust : row) (i : nat) (s n : Z) :
  (length cur + i <= length cust)%nat ->
  rating_loop cur (Some cust) i s n =
    Return (s + sum_scores (abs_diffs cur (drop i cust)),
            n + Z.of_nat (length (abs_diffs cur (drop i cust)))).
Proof.
  revert i s n. induction cur as [|x cur IH]; intros i s n Hlen.
  - simpl. do 2 f_equal; lia.
  - simpl in Hlen.
    destruct (lookup_lt_is_Some_2 cust i) as [y Hy]; [lia|].
    rewrite (drop_S _ _ _ Hy).
    destruct x as [a|]; simpl.
    + rewrite Hy. simpl. destruct y as [b|]; rewrite IH by lia; simpl.
      * unfold sum_scores; simpl. do 2 f_equal; lia.
      * done.
    + rewrite IH by lia. by destruct y.
Qed.





Section Matcher.
Context {T : Type} `{!RatingsTableOps T}.
Variables (ratings : T) (cust_id : Z) (cust_rating : row).
Hypothesis Hcust : get_all_ratings ratings cust_id = Some cust_rating.

End Matcher.

Lemma table_ok_rows {T} `{!RatingsTableOps T} (ratings : T) curator_ids cust_id :
  table_ok ratings curator_ids cust_id = true ->
  exists cust_rating, get_all_ratings ratings cust_id = Some cust_rating /\
    Forall (has_row ratings cust_rating) curator_ids.
Proof.
  unfold table_ok. destruct (get_all_ratings ratings cust_id) as [r0|]; [|done].
  intros H. exists r0. split; [done|].
  apply Forall_forall. intros c Hc%list_elem_of_In.
  rewrite forallb_forall in H. specialize (H c Hc). unfold has_row.
  destruct (get_all_ratings ratings c) as [r|]; [|done].
  exists r. split; [done|]. by apply bool_decide_eq_true in H.
Qed.





(** ** The selection of the first [k] *)

#[export] Instance Qle_total : Total Qle.
Proof. intros x y. destruct (Qlt_le_dec x y) as [H|H]; [left; by apply Qlt_le_weak|by right]. Qed.

#[export] Instance Qle_transitive : Transitive Qle.
Proof. intros x y z. apply Qle_trans. Qed.

Section Selection.
Context {Score : Type} (le : relation Score) `{!forall x y, Decision (le x y)}.
Context `{!Total le} `{!Transitive le}.

#[export] Instance by_score_total : Total (by_score le).
Proof. intros x y. unfold by_score. destruct (total le x.2 y.2); auto. Qed.

#[export] Instance by_score_iid_total : Total (by_score_iid le).
Proof.
  intros x y. unfold by_score_iid.
  destruct (decide (le x.2 y.2)) as [Hxy|Hxy], (decide (le y.2 x.2)) as [Hyx|Hyx].
  - destruct (Z.le_total x.1 y.1); [left|right]; done.
  - right. done.
  - left. done.
  - destruct (total le x.2 y.2); done.
Qed.

Lemma sql_min_nil (scores : list Score) : sql_min le scores = None <-> scores = [].
Proof.
  destruct scores as [|x l]; simpl; [done|].
  split; [|done]. destruct (sql_min le l); [case_decide|]; done.
Qed.

(** [MIN] is a lower bound of the scores. *)
Lemma sql_min_lower (scores : list Score) (m : Score) :
  sql_min le scores = Some m -> Forall (le m) scores.
Proof.
  revert m. induction scores as [|x l IH]; intros m; simpl; [done|].
  destruct (sql_min le l) as [m'|] eqn:E.
  - specialize (IH m' eq_refl). case_decide as Hx; intros [= <-].
    + constructor.
      * destruct (total le x x); done.
      * eapply Forall_impl; [exact IH|]. intros y Hy. by etrans.
    + constructor; [|done]. destruct (total le x m'); done.
  - apply sql_min_nil in E as ->. intros [= <-].
    constructor; [|done]. destruct (total le x x); done.
Qed.

Lemma sql_min_elem (scores : list Score) (m : Score) :
  sql_min le scores = Some m -> m ∈ scores.
Proof.
  revert m. induction scores as [|x l IH]; intros m; simpl; [done|].
  destruct (sql_min le l) as [m'|].
  - case_decide; intros [= <-]; [left|right; by apply IH].
  - intros [= <-]. left.
Qed.

#[export] Instance by_score_transitive : Transitive (by_score le).
Proof. intros x y z. unfold by_score. intros Hxy Hyz. by etrans. Qed.

(** In a list ranked by descending score that has at least [k] entries, the
    boundary is the score of the [k]-th entry: the [k]-th highest score. *)
Lemma boundary_is_kth (k : Z) (ranked : list (Z * Score)) :
  0 < k -> Sorted (by_score le) ranked -> k ≤ Z.of_nat (length ranked) ->
  exists r m, ranked !! (Z.to_nat k - 1)%nat = Some r /\
    boundary le k ranked = Some m /\ le m r.2 /\ le r.2 m.
Proof.
  intros Hk Hsorted Hlen. unfold boundary.
  destruct (lookup_lt_is_Some_2 ranked (Z.to_nat k - 1)) as [r Hr]; [lia|].
  assert (Htake : take (Z.to_nat k) ranked = take (Z.to_nat k - 1) ranked ++ [r]).
  { rewrite <- (take_S_r _ _ _ Hr). f_equal. lia. }
  rewrite Htake.
  set (front := take (Z.to_nat k - 1) ranked) in *.
  destruct (sql_min le (front ++ [r]).*2) as [m|] eqn:Hmin.
  - exists r, m. split; [done|]. split; [done|].
    pose proof (sql_min_lower _ _ Hmin) as Hlow.
    pose proof (sql_min_elem _ _ Hmin) as Hin.
    split.
    + rewrite Forall_forall in Hlow. apply Hlow.
      apply list_elem_of_fmap. exists r. split; [done|].
      apply elem_of_app. right. left.
    + apply list_elem_of_fmap in Hin as (x & -> & [Hx|Hx%list_elem_of_singleton]%elem_of_app).
      * assert (Hss : StronglySorted (by_score le) (front ++ [r])).
        { rewrite <- Htake.
          apply Sorted_StronglySorted in Hsorted; [|apply _].
          rewrite <- (take_drop (Z.to_nat k) ranked) in Hsorted.
          by apply StronglySorted_app_1_l in Hsorted. }
        apply (StronglySorted_app_1_elem_of _ _ _ x r Hss); [done|left].
      * subst x. destruct (total le r.2 r.2); done.
  - apply sql_min_nil, fmap_nil_inv in Hmin. by destruct front.
Qed.

(** The first [k] rows all reach the boundary. *)
Lemma first_reach_boundary (n : nat) (view : list (Z * Score)) :
  Forall (at_least le (sql_min le (take n view).*2)) (take n view).
Proof.
  destruct (sql_min le (take n view).*2) as [m|] eqn:E.
  - apply sql_min_lower in E. rewrite Forall_fmap in E.
    eapply Forall_impl; [exact E|]. by intros [i s].
  - apply sql_min_nil in E. apply fmap_nil_inv in E as ->. constructor.
Qed.

Lemma filter_all {A} (P : A -> Prop) `{!forall x, Decision (P x)} (l : list A) :
  Forall P l -> filter P l = l.
Proof.
  induction 1 as [|x l Hx Hl IH]; [done|].
  rewrite filter_cons_True by done. by rewrite IH.
Qed.

(** With at most [k] rows reaching the boundary, the first [k] rows are
    exactly the rows that reach it. *)
Lemma first_k_qualifying (k : Z) (view : list (Z * Score)) :
  count_at_least le (boundary le k view) view ≤ k ->
  first_k k view = (qualifying le k view).*1.
Proof.
  unfold count_at_least, first_k, qualifying, boundary.
  set (n := Z.to_nat k). set (v := sql_min le (take n view).*2).
  intros Hcount. f_equal.
  rewrite <- (take_drop n view) at 2.
  rewrite filter_app, (filter_all _ (take n view)) by apply first_reach_boundary.
  rewrite <- (take_drop n view) in Hcount at 1.
  rewrite filter_app, (filter_all _ (take n view)) in Hcount by apply first_reach_boundary.
  rewrite length_app, length_take in Hcount.
  destruct (decide (length view <= n)%nat) as [Hle|Hgt].
  - rewrite drop_ge by done. by rewrite filter_nil, app_nil_r.
  - assert (Hnil : filter (at_least le v) (drop n view) = []).
    { apply nil_length_inv. lia. }
    by rewrite Hnil, app_nil_r.
Qed.

(** What the two [SELECT]s and the [LIMIT] query of either method compute
    is the policy of the spec. *)
Lemma select_is_policy (k : Z) (view : list (Z * Score)) :
  (if bool_decide (count_at_least le (boundary le k view) view ≤ k)
   then first_k k view else first_k_by_iid le k view) = top_k_policy le k view.
Proof.
  unfold top_k_policy.
  destruct (decide (Z.of_nat (length view) ≤ k)) as [Hlen|Hlen].
  - assert (Hc : count_at_least le (boundary le k view) view ≤ k).
    { unfold count_at_least.
      pose proof (length_filter (at_least le (boundary le k view)) view). lia. }
    rewrite !bool_decide_eq_true_2 by done.
    unfold first_k. by rewrite take_ge by lia.
  - rewrite (bool_decide_eq_false_2 _ Hlen).
    unfold qualifying at 1. fold (count_at_least le (boundary le k view) view).
    destruct (decide (count_at_least le (boundary le k view) view ≤ k)) as [Hc|Hc].
    + rewrite !bool_decide_eq_true_2 by done. by apply first_k_qualifying.
    + rewrite !bool_decide_eq_false_2 by done. reflexivity.
Qed.


(** The selection never has more than [k] entries, and has fewer only
    when there are fewer than [k] candidates. *)
Lemma top_k_policy_length (k : Z) (ranked : list (Z * Score)) :
  0 ≤ k ->
  Z.of_nat (length (top_k_policy le k ranked)) ≤ k /\
  (Z.of_nat (length (top_k_policy le k ranked)) < k -> Z.of_nat (length ranked) < k).
Proof.
  intros Hk. rewrite <- select_is_policy.
  case_bool_decide; unfold first_k, first_k_by_iid;
    rewrite length_fmap, length_take;
    rewrite ?(Permutation_length (merge_sort_Permutation _ _)); lia.
Qed.
End Selection.

(** ** Stepping through a session *)

Section Rules.
Context {A : Type}.
Implicit Types (Q : outcome A -> World -> Prop) (w : World).

Lemma wp_ret (a : A) Q w : Q (Return a) w -> wp (mret a) Q w.
Proof. done. Qed.

Lemma wp_lift (o : outcome A) Q w : Q o w -> wp (lift o) Q w.
Proof. done. Qed.

Lemma wp_bind {B} (m : M B) (f : B -> M A) Q w :
  wp m (fun o w' => match o with
                     | Return b => wp (f b) Q w'
                     | Raise e => Q (Raise e) w'
                     end) w ->
  wp (m ≫= f) Q w.
Proof.
  unfold wp. simpl. destruct (run m w) as [[b|e] w']; simpl; [|done].
  by destruct (run (f b) w').
Qed.

Lemma wp_mono (m : M A) Q Q' w :
  (forall o w', Q o w' -> Q' o w') -> wp m Q w -> wp m Q' w.
Proof. unfold wp. auto. Qed.

Lemma wp_try (body : M A) (handler : A) Q w :
  wp body (fun o w' => match o with
                        | Raise PgError => Q (Return handler) w'
                        | _ => Q o w'
                        end) w ->
  wp (try_except_pg body handler) Q w.
Proof.
  unfold wp. simpl. by destruct (run body w) as [[a|[]] w'].
Qed.

Lemma wp_execute text (sem : World -> option (A * World)) Q w :
  (faults w (length (log w)) = true \/ sem w = None ->
   Q (Raise PgError) (logged text false w)) ->
  (forall a w1, faults w (length (log w)) = false -> sem w = Some (a, w1) ->
   Q (Return a) (logged text true w1)) ->
  wp (execute text sem) Q w.
Proof.
  intros Hfail Hok. unfold wp. simpl.
  destruct (faults w (length (log w))); [auto|].
  destruct (sem w) as [[a w1]|]; simpl; auto.
Qed.

Lemma wp_query text (f : Tables -> A) Q w :
  (faults w (length (log w)) = true -> Q (Raise PgError) (logged text false w)) ->
  (faults w (length (log w)) = false -> Q (Return (f (tables w))) (logged text true w)) ->
  wp (query text f) Q w.
Proof.
  intros Hfail Hok. apply wp_execute.
  - intros [H|H]; [auto|done].
  - intros a w1 H [= <- <-]. auto.
Qed.

Lemma wp_query_checked text (f : Tables -> option A) Q w :
  (faults w (length (log w)) = true \/ f (tables w) = None ->
   Q (Raise PgError) (logged text false w)) ->
  (forall a, faults w (length (log w)) = false -> f (tables w) = Some a ->
   Q (Return a) (logged text true w)) ->
  wp (query_checked text f) Q w.
Proof.
  intros Hfail Hok. apply wp_execute.
  - intros [H|H]; [auto|]. apply Hfail. right.
    by destruct (f (tables w)).
  - intros a w1 H Hf. destruct (f (tables w)) as [a'|]; [|done].
    injection Hf as <- <-. auto.
Qed.
End Rules.

Section UnitRules.
Implicit Types (Q : outcome () -> World -> Prop) (w : World).

Lemma wp_create_view text name Q w :
  (faults w (length (log w)) = true \/ name ∈ views w ->
   Q (Raise PgError) (logged text false w)) ->
  (faults w (length (log w)) = false -> name ∉ views w ->
   Q (Return ()) (logged text true (set_views ({[name]} ∪ views w) w))) ->
  wp (create_view text name) Q w.
Proof.
  intros Hfail Hok. apply wp_execute.
  - intros [H|H]; [auto|]. apply Hfail. right. by case_bool_decide.
  - intros [] w1 H Hs. case_bool_decide; [done|]. injection Hs as <-. auto.
Qed.

Lemma wp_drop_view name Q w :
  (faults w (length (log w)) = true ->
   Q (Raise PgError) (logged ("DROP VIEW IF EXISTS " +:+ name +:+ ";") false w)) ->
  (faults w (length (log w)) = false ->
   Q (Return ()) (logged ("DROP VIEW IF EXISTS " +:+ name +:+ ";") true
                    (set_views (views w ∖ {[name]}) w))) ->
  wp (drop_view_if_exists name) Q w.
Proof.
  intros Hfail Hok. apply wp_execute.
  - intros [H|H]; [auto|done].
  - intros [] w1 H [= <-]. auto.
Qed.

Lemma wp_update text (f : Tables -> Tables) Q w :
  (faults w (length (log w)) = true -> Q (Raise PgError) (logged text false w)) ->
  (faults w (length (log w)) = false ->
   Q (Return ()) (logged text true (set_tables (f (tables w)) w))) ->
  wp (update text f) Q w.
Proof.
  intros Hfail Hok. apply wp_execute.
  - intros [H|H]; [auto|done].
  - intros [] w1 H [= <-]. auto.
Qed.

Lemma wp_drop_constraint text name Q w :
  (faults w (length (log w)) = true \/ name ∉ constraints w ->
   Q (Raise PgError) (logged text false w)) ->
  (faults w (length (log w)) = false -> name ∈ constraints w ->
   Q (Return ()) (logged text true (set_constraints (constraints w ∖ {[name]}) w))) ->
  wp (drop_constraint text name) Q w.
Proof.
  intros Hfail Hok. apply wp_execute.
  - intros [H|H]; [auto|]. apply Hfail. right. by case_bool_decide.
  - intros [] w1 H Hs. case_bool_decide; [|done]. injection Hs as <-. auto.
Qed.
End UnitRules.

Ltac world_simpl :=
  cbv beta iota zeta;
  cbn [tables constraints views log faults logged set_views set_tables
       set_constraints length fst snd] in *.

Ltac wp_step :=
  lazymatch goal with
  | |- wp (mbind _ _) _ _ => apply wp_bind
  | |- wp (mret _) _ _ => apply wp_ret
  | |- wp (lift _) _ _ => apply wp_lift
  | |- wp (query _ _) _ _ => apply wp_query
  | |- wp (query_checked _ _) _ _ => apply wp_query_checked
  | |- wp (create_view _ _) _ _ => apply wp_create_view
  | |- wp (drop_view_if_exists _) _ _ => apply wp_drop_view
  | |- wp (update _ _) _ _ => apply wp_update
  | |- wp (drop_constraint _ _) _ _ => apply wp_drop_constraint
  | |- wp (try_except_pg _ _) _ _ => apply wp_try
  | |- wp (execute _ _) _ _ => apply wp_execute
  end; world_simpl.

(** In a quiet session the injected failures are absurd. *)
Ltac no_fault Hq :=
  let H := fresh "Hbad" in
  intros H; exfalso;
  first [ by rewrite Hq in H
        | destruct H as [H|H]; [by rewrite Hq in H|] ].

Lemma min_of_first_pos {Score} (le : relation Score) `{!forall x y, Decision (le x y)}
    (k : Z) (view : list (Z * Score)) :
  0 ≤ k -> min_of_first le k view = Some (boundary le k view).
Proof. intros Hk. unfold min_of_first. by rewrite bool_decide_eq_false_2 by lia. Qed.

Lemma generic_select_quiet (k : Z) (w : World) :
  0 ≤ k -> quiet w ->
  wp (generic_select k)
     (fun o w' => o = Return (top_k_policy Qle k (ratingAverage (tables w))) /\
                  tables w' = tables w /\ views w' = views w /\ quiet w') w.
Proof.
  intros Hk Hq. unfold generic_select.
  wp_step. wp_step; [no_fault Hq; by rewrite min_of_first_pos in Hbad |].
  intros min_a _. rewrite min_of_first_pos by done. intros [= <-].
  wp_step. wp_step; [no_fault Hq|intros _].
  rewrite <- select_is_policy by apply _.
  case_bool_decide; wp_step; (try by no_fault Hq); intros _; done.
Qed.




(** ** [recommend_generic] where no statement fails *)

Lemma recommend_generic_quiet (k : Z) (w : World) :
  0 < k -> quiet w -> "ratingAverage" ∉ views w ->
  wp (recommend_generic k)
     (fun o w' =>
        o = Return (Some (if bool_decide (Z.of_nat (length (PopularItems (tables w))) ≤ k)
                          then PopularItems (tables w)
                          else top_k_policy Qle k (ratingAverage (tables w)))) /\
        tables w' = tables w /\ views w' = views w /\ quiet w') w.
Proof.
  intros Hk Hq Hfresh. unfold recommend_generic, recommend_generic_body.
  wp_step. wp_step. wp_step; [no_fault Hq|intros _].
  wp_step. case_bool_decide.
  - wp_step; [no_fault Hq|intros _].
    wp_step. wp_step; [no_fault Hq|intros _]. wp_step.
    repeat split; [set_solver|done].
  - wp_step. wp_step; [no_fault Hq; set_solver|intros _ _].
    wp_step. wp_step; [no_fault Hq|intros _].
    eapply wp_mono; [|apply generic_select_quiet; [lia|done]].
    intros o w' (-> & Ht & Hv & Hq'). world_simpl.
    wp_step. wp_step; [no_fault Hq'|intros _]. wp_step.
    rewrite Ht, Hv. repeat split; [set_solver|done].
Qed.


Lemma elem_of_reviews_of items reviews r :
  r ∈ reviews_of items reviews <-> r ∈ reviews /\ iid r ∈ items.
Proof.
  unfold reviews_of. rewrite list_elem_of_bind. split.
  - intros (p & Hr & Hp). apply list_elem_of_filter in Hr as [-> Hr]. done.
  - intros [Hr Hi]. exists (iid r). split; [|done]. by apply list_elem_of_filter.
Qed.






Lemma averages_of_unrated items reviews :
  Forall (fun r => iid r ∉ items) reviews -> averages_of items reviews = [].
Proof.
  intros Hno. unfold averages_of.
  assert (Hnil : reviews_of items reviews = []).
  { apply elem_of_nil_inv. intros r [Hr Hi]%elem_of_reviews_of.
    rewrite Forall_forall in Hno. by apply (Hno r). }
  by rewrite Hnil.
Qed.

(** C6 (amended): when no popular item has any rating and no statement
    fails, [recommend_generic] returns the empty list if there are more than
    [k] popular items, and all the popular items if there are at most [k]. *)
Theorem recommend_generic_unrated (k : Z) (w : World) :
  0 < k -> quiet w -> "ratingAverage" ∉ views w ->
  Forall (fun r => iid r ∉ PopularItems (tables w)) (Review (tables w)) ->
  (k < Z.of_nat (length (PopularItems (tables w))) ->
   result_of (recommend_generic k) w = Return (Some [])) /\
  (Z.of_nat (length (PopularItems (tables w))) ≤ k ->
   result_of (recommend_generic k) w = Return (Some (PopularItems (tables w)))).
Proof.
  intros Hk Hq Hfresh Hno.
  destruct (recommend_generic_quiet k w Hk Hq Hfresh) as (Hr & _).
  fold (result_of (recommend_generic k) w) in Hr. rewrite Hr. split; intros Hlen.
  - rewrite bool_decide_eq_false_2 by lia.
    unfold ratingAverage. rewrite averages_of_unrated by done.
    unfold top_k_policy. by rewrite bool_decide_eq_true_2 by (simpl; lia).
  - by rewrite bool_decide_eq_true_2.
Qed.

Lemma recommend_generic_unrated_witness :
  (1 < Z.of_nat (length (PopularItems unrated_shop)) ->
   result_of (recommend_generic 1) (start unrated_shop) = Return (Some [])) /\
  (Z.of_nat (length (PopularItems unrated_shop)) ≤ 1 ->
   result_of (recommend_generic 1) (start unrated_shop)
     = Return (Some (PopularItems unrated_shop))).
Proof.
  apply (recommend_generic_unrated 1 (start unrated_shop)).
  - lia.
  - intros n. reflexivity.
  - vm_compute. set_solver.
  - vm_compute. constructor.
Defined.

(** C6 as claimed fails where the popular items are at most [k]: with two
    popular items, no rating and [k = 5] both items are returned. *)
Lemma recommend_generic_unrated_not_empty :
  Forall (fun r => iid r ∉ PopularItems unrated_shop) (Review unrated_shop) /\
  Z.of_nat (length (PopularItems unrated_shop)) ≤ 5 /\
  result_of (recommend_generic 5) (start unrated_shop) = Return (Some [1; 2]) /\
  result_of (recommend_generic 5) (start unrated_shop) ≠ Return (Some []).
Proof. vm_compute. repeat split; (constructor || congruence). Qed.

(** ** [recommend] where no statement fails *)

Lemma top_k_policy_nil {Score} (le : relation Score) `{!forall x y, Decision (le x y)}
    `{!Total le} `{!Transitive le} (k : Z) (ranked : list (Z * Score)) :
  0 < k -> top_k_policy le k ranked = [] <-> ranked = [].
Proof.
  intros Hk. split.
  - intros Hnil. destruct (top_k_policy_length le k ranked) as [_ Hlt]; [lia|].
    rewrite Hnil in Hlt. specialize (Hlt ltac:(simpl; lia)).
    unfold top_k_policy in Hnil. rewrite bool_decide_eq_true_2 in Hnil by lia.
    by apply fmap_nil_inv in Hnil.
  - intros ->. unfold top_k_policy. by rewrite bool_decide_eq_true_2 by (simpl; lia).
Qed.

Lemma selection_empty (k : Z) (ranked : list (Z * Z)) :
  0 < k -> top_k_policy Z.le k ranked = [] <-> ranked = [].
Proof. apply top_k_policy_nil; apply _. Qed.

Lemma take_added {A} (new l l' : list A) :
  l' = new ++ l -> take (length l' - length l) l' = new.
Proof.
  intros ->. rewrite length_app.
  replace (length new + length l - length l)%nat with (length new) by lia.
  apply take_app_length.
Qed.

Lemma cons_added {A} (x : A) (new l l' : list A) :
  l' = new ++ l -> x :: l' = (x :: new) ++ l.
Proof. by intros ->. Qed.

Ltac added_log :=
  erewrite take_added; [|repeat (apply cons_added); exact (eq_refl (x := [] ++ _))].

Ltac quiet_step Hq :=
  lazymatch goal with
  | |- wp (mbind _ _) _ _ => apply wp_bind; world_simpl
  | |- wp (mret _) _ _ => apply wp_ret; world_simpl
  | |- wp (query _ _) _ _ => apply wp_query; world_simpl; [no_fault Hq | intros _]
  | |- wp (create_view _ _) _ _ =>
      apply wp_create_view; world_simpl; [no_fault Hq; set_solver | intros _ _]
  | |- wp (drop_view_if_exists _) _ _ =>
      apply wp_drop_view; world_simpl; [no_fault Hq | intros _]
  | |- wp (update _ _) _ _ => apply wp_update; world_simpl; [no_fault Hq | intros _]
  end.

Section RecommendQuiet.
Context {T : Type} `{!RatingsTableOps T}.

Lemma recommend_body_quiet (cust k : Z) (w : World) :
  0 < k -> quiet w -> fresh_views w ->
  wp (recommend_body cust k)
     (fun o w' =>
        match similar_curator cust (tables w) with
        | Raise e => o = Raise e
        | Return curator =>
            let result := top_k_policy Z.le k (itemLeft cust curator (tables w)) in
            if bool_decide (curator = None) || bool_decide (result = [])
            then o = result_of (recommend_generic k) w
            else o = Return (Some result) /\
                 forall b, (count_popular, b) ∉
                   take (length (log w') - length (log w)) (log w')
        end) w.
Proof.
  intros Hk Hq (Hf1 & Hf2 & Hf3 & Hf4 & Hf5).
  unfold similar_curator. cbv zeta.
  destruct (set_ratings _ (custRating cust (tables w))) as [tb|e] eqn:E1;
    cbn [mbind outcome_bind obind].
  2: { unfold recommend_body. do 7 quiet_step Hq. apply wp_lift. by rewrite E1. }
  destruct (set_ratings tb _) as [tb'|e] eqn:E2; cbn [mbind outcome_bind obind].
  2: { unfold recommend_body. do 7 quiet_step Hq. apply wp_lift. rewrite E1.
       do 3 quiet_step Hq. apply wp_lift. by rewrite E2. }
  destruct (find_similar_curator tb' _ cust) as [curator|e] eqn:E3.
  2: { unfold recommend_body. do 7 quiet_step Hq. apply wp_lift. rewrite E1.
       do 3 quiet_step Hq. apply wp_lift. rewrite E2.
       do 3 quiet_step Hq. apply wp_lift. by rewrite E3. }
  match goal with |- wp _ ?Q0 _ => set (Post := Q0) end.
  unfold recommend_body. do 7 quiet_step Hq. apply wp_lift. rewrite E1.
  do 3 quiet_step Hq. apply wp_lift. rewrite E2.
  do 3 quiet_step Hq. apply wp_lift. rewrite E3.
  do 4 quiet_step Hq.
  unfold recommend_select.
  do 2 quiet_step Hq.
  apply wp_query_checked; world_simpl;
    [no_fault Hq; by rewrite min_of_first_pos in Hbad by lia|].
  intros min_r _. rewrite min_of_first_pos by lia. intros [= <-].
  do 2 quiet_step Hq.
  pose proof (select_is_policy Z.le k (itemLeft cust curator (tables w))) as Hsel.
  set (result := top_k_policy Z.le k (itemLeft cust curator (tables w))) in *.
  assert (Hnum : forall l : list Z, bool_decide (Z.of_nat (length l) = 0) = bool_decide (l = [])).
  { intros l. apply bool_decide_ext. destruct l; simpl; [done|]. split; [lia|done]. }
  case_bool_decide as Hn; do 3 quiet_step Hq; do 2 quiet_step Hq;
    rewrite Hsel, Hnum.
  all: destruct (bool_decide (curator = None) || bool_decide (result = [])) eqn:Hcond.
  all: unfold drop_recommend_views.
  1,3: repeat quiet_step Hq;
    (eapply wp_mono; [|apply recommend_generic_quiet; [lia|exact Hq|world_simpl; set_solver]]);
    intros o w' (-> & _); unfold Post; world_simpl;
    destruct (recommend_generic_quiet k w) as (Hg & _); [lia|done..|];
    fold (result_of (recommend_generic k) w) in Hg; by rewrite Hg.
  all: repeat quiet_step Hq.
  all: unfold Post; rewrite Hsel; split; [done|].
  all: added_log.
  all: intros [];  apply (bool_decide_unpack _); vm_compute; exact I.
Qed.
End RecommendQuiet.


Lemma run_try_result {A} (body : M A) (handler : A) (w : World) :
  (run (try_except_pg body handler) w).1 =
    match (run body w).1 with
    | Raise PgError => Return handler
    | o => o
    end.
Proof. simpl. by destruct (run body w) as [[a|[]] w']. Qed.



(** ** Calls in which statements may fail *)

Ltac fault_step leaf :=
  lazymatch goal with
  | |- wp (mbind _ _) _ _ => apply wp_bind; world_simpl
  | |- wp (mret _) _ _ => apply wp_ret; world_simpl
  | |- wp (query _ _) _ _ => apply wp_query; world_simpl; [intros _; leaf | intros _]
  | |- wp (create_view _ _) _ _ =>
      apply wp_create_view; world_simpl; [intros _; leaf | intros _ ?]
  | |- wp (drop_view_if_exists _) _ _ =>
      apply wp_drop_view; world_simpl; [intros _; leaf | intros _]
  | |- wp (update _ _) _ _ => apply wp_update; world_simpl; [intros _; leaf | intros _]
  | |- wp (drop_constraint _ _) _ _ =>
      apply wp_drop_constraint; world_simpl; [intros _; leaf | intros _ ?]
  | |- wp (query_checked _ _) _ _ =>
      apply wp_query_checked; world_simpl; [intros _; leaf | intros ? _ ?]
  end.

Lemma length_remove_dups (l : list Z) : (length (remove_dups l) <= length l)%nat.
Proof.
  induction l as [|x l IH]; simpl; [done|]. case_decide; simpl; lia.
Qed.

Lemma at_most_rows (k : Z) (candidates l : list Z) :
  Z.of_nat (length l) ≤ k ->
  (Z.of_nat (length l) < k -> Z.of_nat (length candidates) < k) ->
  at_most k candidates l.
Proof.
  intros H1 H2. split; [done|]. intros H.
  pose proof (length_remove_dups candidates). specialize (H2 H). lia.
Qed.

Lemma selection_at_most {Score} (le : relation Score) `{!forall x y, Decision (le x y)}
    `{!Total le} `{!Transitive le} (k : Z) (ranked : list (Z * Score)) :
  0 ≤ k -> at_most k ranked.*1 (top_k_policy le k ranked).
Proof.
  intros Hk. destruct (top_k_policy_length le k ranked Hk) as [H1 H2].
  apply at_most_rows; [done|]. by rewrite length_fmap.
Qed.

Lemma recommend_generic_bound (k : Z) (w : World) :
  0 < k ->
  wp (recommend_generic k)
     (fun o w' => tables w' = tables w /\
        forall l, o = Return (Some l) -> at_most k (generic_candidates k (tables w)) l) w.
Proof.
  intros Hk. unfold recommend_generic, recommend_generic_body.
  match goal with |- wp _ ?Q0 _ => set (Post := Q0) end.
  assert (Hnone : forall w', tables w' = tables w -> Post (Return None) w').
  { intros w' Ht. split; [done|]. by intros l [=]. }
  apply wp_try.
  repeat fault_step ltac:(by apply Hnone).
  destruct (decide (Z.of_nat (length (PopularItems (tables w))) ≤ k)) as [Hpop|Hpop].
  - rewrite bool_decide_eq_true_2 by done.
    repeat fault_step ltac:(by apply Hnone).
    split; [done|]. intros l [= <-].
    unfold generic_candidates. rewrite bool_decide_eq_true_2 by done.
    apply at_most_rows; lia.
  - rewrite bool_decide_eq_false_2 by done.
    repeat fault_step ltac:(by apply Hnone).
    unfold generic_select.
    repeat fault_step ltac:(by apply Hnone).
    match goal with H : min_of_first _ _ _ = Some _ |- _ =>
      rewrite min_of_first_pos in H by lia; injection H as <- end.
    repeat fault_step ltac:(by apply Hnone).
    pose proof (select_is_policy Qle k (ratingAverage (tables w))) as Hsel.
    case_bool_decide; repeat fault_step ltac:(by apply Hnone);
      (split; [done|]); intros l [= <-]; rewrite Hsel;
      unfold generic_candidates; rewrite bool_decide_eq_false_2 by done;
      apply selection_at_most; (lia || apply _).
Qed.

Section RecommendBound.
Context {T : Type} `{!RatingsTableOps T}.

Lemma recommend_bound (cust k : Z) (w : World) :
  0 < k ->
  wp (recommend cust k)
     (fun o w' => forall l, o = Return (Some l) ->
        at_most k (recommend_candidates cust k (tables w)) l) w.
Proof.
  intros Hk. unfold recommend_candidates, similar_curator. cbv zeta.
  (* the three computations on the ratings table, ahead of the session *)
  destruct (set_ratings _ (custRating cust (tables w))) as [tb|e] eqn:E1;
    cbn [mbind outcome_bind obind].
  2: { unfold recommend, recommend_body. apply wp_try.
       repeat fault_step ltac:(by intros l [=]).
       apply wp_lift. rewrite E1. by destruct e; intros l [=]. }
  destruct (set_ratings tb _) as [tb'|e] eqn:E2; cbn [mbind outcome_bind obind].
  2: { unfold recommend, recommend_body. apply wp_try.
       repeat fault_step ltac:(by intros l [=]).
       apply wp_lift. rewrite E1.
       repeat fault_step ltac:(by intros l [=]).
       apply wp_lift. rewrite E2. by destruct e; intros l [=]. }
  destruct (find_similar_curator tb' _ cust) as [curator|e] eqn:E3.
  2: { unfold recommend, recommend_body. apply wp_try.
       repeat fault_step ltac:(by intros l [=]).
       apply wp_lift. rewrite E1.
       repeat fault_step ltac:(by intros l [=]).
       apply wp_lift. rewrite E2.
       repeat fault_step ltac:(by intros l [=]).
       apply wp_lift. rewrite E3. by destruct e; intros l [=]. }
  match goal with |- wp _ ?Q0 _ => set (Post := Q0) end.
  assert (Hnone : forall w', Post (Return None) w') by (by intros w' l [=]).
  unfold recommend, recommend_body. apply wp_try.
  repeat fault_step ltac:(by apply Hnone). apply wp_lift. rewrite E1.
  repeat fault_step ltac:(by apply Hnone). apply wp_lift. rewrite E2.
  repeat fault_step ltac:(by apply Hnone). apply wp_lift. rewrite E3.
  repeat fault_step ltac:(by apply Hnone).
  unfold recommend_select.
  repeat fault_step ltac:(by apply Hnone).
  match goal with H : min_of_first _ _ _ = Some _ |- _ =>
    rewrite min_of_first_pos in H by lia; injection H as <- end.
  repeat fault_step ltac:(by apply Hnone).
  pose proof (select_is_policy Z.le k (itemLeft cust curator (tables w))) as Hsel.
  assert (Hnum : forall l : list Z,
            bool_decide (Z.of_nat (length l) = 0) = bool_decide (l = [])).
  { intros l. apply bool_decide_ext. destruct l; simpl; [done|]. split; [lia|done]. }
  case_bool_decide as Hn; repeat fault_step ltac:(by apply Hnone);
    rewrite Hsel, Hnum.
  all: assert (Hgeneric : forall w1, tables w1 = tables w ->
         wp (recommend_generic k)
            (fun o w' => forall l, o = Return (Some l) ->
               at_most k (generic_candidates k (tables w)) l) w1).
  1,3: (intros w1 Ht; eapply wp_mono; [|by apply recommend_generic_bound];
        intros o w' [_ Hb]; by rewrite <- Ht).
  all: destruct curator as [c|];
    [rewrite (bool_decide_eq_false_2 (Some c = None)) by done
    |rewrite (bool_decide_eq_true_2 (None = None)) by done]; cbn [orb].
  (* no curator: the generic recommendations *)
  2,4: unfold drop_recommend_views; repeat fault_step ltac:(by apply Hnone);
    (eapply wp_mono; [|by apply Hgeneric]);
    intros [[l|]|[]] w' Hb; try apply Hnone; try (by intros ? [=]);
    intros ? [= <-]; by apply Hb.
  all: destruct (decide (itemLeft cust (Some c) (tables w) = [])) as [Hleft|Hleft].
  (* a curator with nothing left to recommend *)
  1,3: rewrite (bool_decide_eq_true_2 (top_k_policy _ _ _ = []))
         by (by apply selection_empty);
    unfold drop_recommend_views; repeat fault_step ltac:(by apply Hnone);
    (eapply wp_mono; [|by apply Hgeneric]);
    intros [[l|]|[]] w' Hb; try apply Hnone; try (by intros ? [=]);
    intros ? [= <-]; unfold Post; rewrite bool_decide_eq_true_2 by done;
    by apply Hb.
  (* the curator's own items *)
  all: rewrite (bool_decide_eq_false_2 (top_k_policy _ _ _ = []))
         by (by rewrite selection_empty);
    unfold drop_recommend_views; repeat fault_step ltac:(by apply Hnone);
    intros l [= <-]; rewrite Hsel, bool_decide_eq_false_2 by done;
    apply selection_at_most; (lia || apply _).
Qed.
End RecommendBound.

(** C4: whatever statements fail, a list returned by [recommend_generic] or
    by [recommend] for [k > 0] has at most [k] items, and fewer than [k]
    only when the candidates hold fewer than [k] distinct items. *)
Theorem recommend_at_most_k {T} `{!RatingsTableOps T} (cust k : Z) (w : World) :
  0 < k ->
  (forall l, result_of (recommend_generic k) w = Return (Some l) ->
     at_most k (generic_candidates k (tables w)) l) /\
  (forall l, result_of (recommend cust k) w = Return (Some l) ->
     at_most k (recommend_candidates cust k (tables w)) l).
Proof.
  intros Hk. split.
  - intros l. by apply (recommend_generic_bound k w Hk).
  - apply (recommend_bound cust k w Hk).
Qed.

Lemma recommend_at_most_k_witness :
  (forall l, result_of (recommend_generic 2) shop_session = Return (Some l) ->
     at_most 2 (generic_candidates 2 (tables shop_session)) l) /\
  (forall l, result_of (recommend (T := SpecTable) 8 2) shop_session = Return (Some l) ->
     at_most 2 (recommend_candidates (T := SpecTable) 8 2 (tables shop_session)) l).
Proof. apply (recommend_at_most_k (T := SpecTable) 8 2 shop_session). lia. Defined.

(** On [shop_snapshot]: two of three popular items are rated, so
    [recommend_generic 2] returns both; customer 8 has bought items 2 and 4,
    so of curator 3 only item 1 is left and [recommend 8 2] returns it
    alone; customer 7 has bought items 1 and 2 and gets the generic list;
    customer 9 rated no popular item, has no row in the ratings table, and
    the matcher raises [TypeError], which [recommend] does not catch. *)
Example shop_recommendations :
  result_of (recommend_generic 2) shop_session = Return (Some [2; 1]) /\
  result_of (recommend (T := SpecTable) 8 2) shop_session = Return (Some [1]) /\
  result_of (recommend (T := SpecTable) 7 2) shop_session = Return (Some [2; 1]) /\
  result_of (recommend (T := SpecTable) 9 2) shop_session = Raise TypeError.
Proof. vm_compute. done. Qed.

(** ** Failures: what is returned and what is left behind *)

Lemma app_added {A} (new new' l l' : list A) :
  l' = new' ++ l -> new ++ l' = (new ++ new') ++ l.
Proof. intros ->. by rewrite app_assoc. Qed.

(** The statements added to a log that is spelled out. *)
Ltac added_entries :=
  world_simpl; repeat (apply cons_added); exact (eq_refl (x := [] ++ _)).

(** A text is, or is not, in a list of statements that is spelled out. *)
Ltac in_statements := apply (bool_decide_unpack _); vm_compute; exact I.
Ltac not_in_statements H :=
  exfalso; revert H; apply (bool_decide_eq_false_1 _); vm_compute; reflexivity.

Ltac all_succeeded H :=
  unfold statement_failed in H; cbn [fmap list_fmap snd] in H;
  repeat (apply elem_of_cons in H as [H|H]; [discriminate H|]);
  by apply elem_of_nil in H.

Ltac generic_leaf :=
  split; [done|]; split;
  [ eexists; split; [added_entries|]; split; [done|];
    first [ done | let H := fresh in intros H; all_succeeded H ]
  | unfold last_failed; world_simpl;
    first [ by intros ? [=]
          | intros ? [= <-]; split; [in_statements|];
            let H := fresh in
            intros H; first [not_in_statements H | clear H; set_solver] ] ].

Lemma recommend_generic_failures (k : Z) (w : World) :
  wp (recommend_generic k)
     (fun o w' =>
        o ≠ Raise PgError /\
        (exists new, log w' = new ++ log w /\ new ≠ [] /\
           (statement_failed new -> o = Return None)) /\
        (forall text, last_failed w' = Some text ->
           text ∈ generic_statements /\
           (text ∈ after_ratingAverage -> "ratingAverage" ∈ views w'))) w.
Proof.
  unfold recommend_generic, recommend_generic_body.
  match goal with |- wp _ ?Q0 _ => set (Post := Q0) end.
  apply wp_try.
  repeat fault_step ltac:(unfold Post; generic_leaf).
  case_bool_decide.
  - repeat fault_step ltac:(unfold Post; generic_leaf). unfold Post; generic_leaf.
  - repeat fault_step ltac:(unfold Post; generic_leaf).
    unfold generic_select.
    repeat fault_step ltac:(unfold Post; generic_leaf).
    case_bool_decide; repeat fault_step ltac:(unfold Post; generic_leaf);
      unfold Post; generic_leaf.
Qed.

Lemma generic_not_after (text : string) :
  text ∈ generic_statements -> text ∉ after_custRating.
Proof.
  revert text. apply Forall_forall.
  apply (bool_decide_unpack _). vm_compute. exact I.
Qed.

Lemma after_nested (text : string) :
  (text ∈ after_result -> text ∈ after_itemLeft) /\
  (text ∈ after_itemLeft -> text ∈ after_custIID) /\
  (text ∈ after_custIID -> text ∈ after_custRating).
Proof.
  split; [|split]; intros H; apply elem_of_app; by right.
Qed.

Ltac recommend_leaf :=
  split; [done|]; split;
  [ eexists; split; [added_entries|]; split; [done|];
    first [ done | let H := fresh in intros H; all_succeeded H ]
  | unfold last_failed; world_simpl;
    first [ by intros ? [=]
          | intros ? [= <-]; repeat split;
            let H := fresh in
            intros H; first [not_in_statements H | clear H; set_solver] ] ].

Section RecommendFailures.
Context {T : Type} `{!RatingsTableOps T}.

Lemma recommend_failures (cust k : Z) (w : World) :
  wp (recommend cust k)
     (fun o w' =>
        o ≠ Raise PgError /\
        (exists new, log w' = new ++ log w /\ new ≠ [] /\
           (statement_failed new -> o = Return None)) /\
        (forall text, last_failed w' = Some text ->
           (text ∈ after_custRating -> "custRating" ∈ views w') /\
           (text ∈ after_custIID -> "custIID" ∈ views w') /\
           (text ∈ after_itemLeft -> "itemLeft" ∈ views w') /\
           (text ∈ after_result -> "result" ∈ views w'))) w.
Proof.
  unfold recommend, recommend_body.
  match goal with |- wp _ ?Q0 _ => set (Post := Q0) end.
  apply wp_try.
  repeat fault_step ltac:(unfold Post; recommend_leaf).
  apply wp_lift. destruct (set_ratings _ _) as [tb|e];
    [|by destruct e; unfold Post; recommend_leaf].
  repeat fault_step ltac:(unfold Post; recommend_leaf).
  apply wp_lift. destruct (set_ratings _ _) as [tb'|e];
    [|by destruct e; unfold Post; recommend_leaf].
  repeat fault_step ltac:(unfold Post; recommend_leaf).
  apply wp_lift. destruct (find_similar_curator _ _ _) as [curator|e];
    [|by destruct e; unfold Post; recommend_leaf].
  repeat fault_step ltac:(unfold Post; recommend_leaf).
  unfold recommend_select.
  repeat fault_step ltac:(unfold Post; recommend_leaf).
  case_bool_decide; repeat fault_step ltac:(unfold Post; recommend_leaf).
  all: destruct (bool_decide (curator = None) || bool_decide (_ = 0)).
  all: unfold drop_recommend_views; repeat fault_step ltac:(unfold Post; recommend_leaf).
  2,4: unfold Post; recommend_leaf.
  all: eapply wp_mono; [|apply recommend_generic_failures].
  all: intros o w' (Hne & (new & Hlog & Hnew & Hfail) & Hlast).
  all: assert (HPost : Post o w');
    [|by destruct o as [r|[]]].
  all: split; [done|]; split.
  1,3: eexists; split;
    [rewrite Hlog; world_simpl; apply app_added; repeat (apply cons_added);
     exact (eq_refl (x := [] ++ _))|];
    split; [by destruct new|];
    unfold statement_failed; rewrite fmap_app, elem_of_app;
    intros [Hf|Hf]; [by apply Hfail|all_succeeded Hf].
  all: intros text Hl; destruct (Hlast text Hl) as [Hg _];
    apply generic_not_after in Hg;
    destruct (after_nested text) as (Ha & Hb & Hc);
    repeat split; intros Hin; exfalso; apply Hg; auto.
Qed.
End RecommendFailures.

Lemma sent_added {A} (m : M A) (w : World) (new : list (string * bool)) :
  log (run m w).2 = new ++ log w -> sent m w = reverse new.
Proof. intros Hlog. unfold sent. by rewrite (take_added new). Qed.

Lemma statement_failed_reverse (new : list (string * bool)) :
  statement_failed (reverse new) <-> statement_failed new.
Proof. unfold statement_failed. by rewrite fmap_reverse, elem_of_reverse. Qed.

(** C8: whatever the input and whichever statements fail, [recommend] and
    [recommend_generic] never raise [pg.Error]; when one of the statements
    they sent failed they return [None]; and [None] is not the empty list. *)
Theorem data_source_failure_gives_none {T} `{!RatingsTableOps T}
    (cust k : Z) (w : World) :
  (result_of (recommend_generic k) w ≠ Raise PgError /\
   (statement_failed (sent (recommend_generic k) w) ->
    result_of (recommend_generic k) w = Return None)) /\
  (result_of (recommend cust k) w ≠ Raise PgError /\
   (statement_failed (sent (recommend cust k) w) ->
    result_of (recommend cust k) w = Return None)) /\
  Return (A := option (list Z)) None ≠ Return (Some []).
Proof.
  split; [|split; [|done]].
  - destruct (recommend_generic_failures k w) as (Hne & (new & Hlog & _ & Hfail) & _).
    split; [done|]. rewrite (sent_added _ _ _ Hlog), statement_failed_reverse.
    exact Hfail.
  - destruct (recommend_failures cust k w) as (Hne & (new & Hlog & _ & Hfail) & _).
    split; [done|]. rewrite (sent_added _ _ _ Hlog), statement_failed_reverse.
    exact Hfail.
Qed.




(** ** [repopulate] *)

Lemma repopulate_effect (w : World) :
  wp repopulate
     (fun o w' =>
        (constraints w' ⊆ constraints w) /\
        (o = Return 0 \/ o = Return (-1)) /\
        (o = Return 0 ->
         (cid_fkey ∈ constraints w) /\
         constraints w' = constraints w ∖ {[cid_fkey]} /\
         PopularItems (tables w') = popular (tables w) /\
         DefinitiveRatings (tables w') = definitive (tables w') /\
         (exists earlier, log w' = ("COMMIT", true) :: earlier))) w.
Proof.
  unfold repopulate, repopulate_body.
  match goal with |- wp _ ?Q0 _ => set (Post := Q0) end.
  assert (Hfail : forall w', constraints w' ⊆ constraints w -> Post (Return (-1)) w').
  { intros w' Hc. split; [done|]. split; [by right|]. by intros [=]. }
  apply wp_try.
  repeat fault_step ltac:(apply Hfail; world_simpl; set_solver).
  apply wp_execute; world_simpl.
  { intros _. apply Hfail. world_simpl. set_solver. }
  intros [] w1 _ [= <-]. world_simpl.
  repeat fault_step ltac:(apply Hfail; world_simpl; set_solver).
  split; [set_solver|]. split; [by left|]. intros _.
  split; [done|]. split; [done|]. split; [done|]. split; [done|]. by eexists.
Qed.


(** A call can only succeed on a table that still has the constraint, and
    leaves it without. *)
Lemma repopulate_needs_constraint (w : World) :
  result_of repopulate w = Return 0 ->
  cid_fkey ∈ constraints w /\ cid_fkey ∉ constraints (run repopulate w).2.
Proof.
  intros Hres. destruct (repopulate_effect w) as (_ & _ & Hok).
  destruct (Hok Hres) as (Hin & Hc & _). split; [done|].
  rewrite Hc. apply not_elem_of_difference. right. by apply elem_of_singleton.
Qed.


(** ** The examples of the spec *)

(** Customer 5 against curators A (1) and B (2): the means are 0 and 3, and
    A is returned in either order of the list; curator C (4) shares no item
    with the customer and is never returned. *)
Example spec_matcher_examples :
  find_similar_curator example_table [1; 2] 5 = Return (Some 1) /\
  find_similar_curator example_table [2; 1] 5 = Return (Some 1) /\
  mean (shared example_table 5 1) = (0 # 2)%Q /\
  mean (shared example_table 5 2) = (6 # 2)%Q /\
  find_similar_curator example_table [4] 5 = Return None /\
  find_similar_curator example_table [4; 2] 5 = Return (Some 2).
Proof. vm_compute. done. Qed.

(** Popular items 10, 20 and 30 with means 4.5, 4.5 and 3: for [k = 2] the
    boundary 4.5 is reached by two entries and both are returned; for
    [k = 1] it is reached by two, more than [k], and the lower item ID wins. *)
Example spec_selection_examples :
  top_k_policy Qle 2 [(10, (9 # 2)%Q); (20, (9 # 2)%Q); (30, (3 # 1)%Q)] = [10; 20] /\
  top_k_policy Qle 1 [(20, (9 # 2)%Q); (10, (9 # 2)%Q); (30, (3 # 1)%Q)] = [10] /\
  top_k_policy Qle 5 [(10, (9 # 2)%Q); (20, (9 # 2)%Q); (30, (3 # 1)%Q)] = [10; 20; 30].
Proof. vm_compute. done. Qed.

(** The first [repopulate] on [shop] yields [shop_snapshot]. *)
Example shop_repopulated :
  result_of repopulate (start shop) = Return 0 /\
  tables (run repopulate (start shop)).2 = shop_snapshot.
Proof. vm_compute. done. Qed.

(** The two ways to the generic recommendations: customer 7 of
    [shop_snapshot] is matched with curator 3 but has bought both items the
    curator rated; in [unrated_shop] there is no curator at all. *)
Example fallback_examples :
  similar_curator (T := SpecTable) 7 shop_snapshot = Return (Some 3) /\
  itemLeft 7 (Some 3) shop_snapshot = [] /\
  result_of (recommend (T := SpecTable) 7 1) shop_session
    = result_of (recommend_generic 1) shop_session /\
  similar_curator (T := SpecTable) 7 unrated_shop = Return None /\
  result_of (recommend (T := SpecTable) 7 5) (start unrated_shop) = Return (Some [1; 2]).
Proof. vm_compute. done. Qed.

(** * Further properties *)

(** ** The matcher outside its preconditions *)

(** Against a customer without a row the inner loop raises [TypeError] at
    the first score of the curator, and goes through when the curator's row
    holds none. *)
Lemma rating_loop_absent (cur : row) (i : nat) (s n : Z) :
  (Exists is_Some cur -> rating_loop cur None i s n = Raise TypeError) /\
  (Forall (fun x => x = None) cur -> rating_loop cur None i s n = Return (s, n)).
Proof.
  revert i. induction cur as [|x cur IH]; intros i; (split; [intros Hex|intros Hall]).
  - by apply Exists_nil in Hex.
  - done.
  - destruct x as [a|]; simpl; [done|].
    apply Exists_cons in Hex as [[? [=]]|Hex]. by apply IH.
  - apply Forall_cons in Hall as [-> Hall]. simpl. by apply IH.
Qed.

Lemma no_score_all_none (r : row) : ~ Exists is_Some r -> Forall (fun x => x = None) r.
Proof.
  intros Hno. apply Forall_forall. intros x Hx.
  destruct x as [a|]; [|done]. destruct Hno. apply Exists_exists. by exists (Some a).
Qed.

Lemma curator_loop_absent {T} `{!RatingsTableOps T} (ratings : T)
    (cs : list Z) (mc : option Z) (md : option Q) :
  Forall (fun c => is_Some (get_all_ratings ratings c)) cs ->
  (Exists (has_rating ratings) cs ->
   curator_loop ratings cs None mc md = Raise TypeError) /\
  (Forall (fun c => ~ has_rating ratings c) cs ->
   curator_loop ratings cs None mc md = Return mc).
Proof.
  induction 1 as [|c cs [r Hr] Hrows IH]; (split; [intros Hex|intros Hall]).
  - by apply Exists_nil in Hex.
  - done.
  - cbn [curator_loop]. rewrite Hr.
    destruct (decide (Exists is_Some r)) as [Hsome|Hnone].
    + by rewrite (proj1 (rating_loop_absent r 0 0 0) Hsome).
    + rewrite (proj2 (rating_loop_absent r 0 0 0) (no_score_all_none r Hnone)). simpl.
      apply IH. apply Exists_cons in Hex as [Hc|Hex]; [|done].
      unfold has_rating in Hc. by rewrite Hr in Hc.
  - apply Forall_cons in Hall as [Hc Hall]. cbn [curator_loop]. rewrite Hr.
    unfold has_rating in Hc. rewrite Hr in Hc.
    rewrite (proj2 (rating_loop_absent r 0 0 0) (no_score_all_none r Hc)). simpl.
    by apply IH.
Qed.

(** X1: when the customer has no row in the table (and every curator has
    one), [find_similar_curator] raises [TypeError] as soon as some curator
    has a score, and returns [None] only when no curator has any. *)
Theorem find_similar_curator_absent_customer {T} `{!RatingsTableOps T}
    (ratings : T) (curator_ids : list Z) (cust_id : Z) :
  get_all_ratings ratings cust_id = None ->
  Forall (fun c => is_Some (get_all_ratings ratings c)) curator_ids ->
  (Exists (has_rating ratings) curator_ids ->
   find_similar_curator ratings curator_ids cust_id = Raise TypeError) /\
  (Forall (fun c => ~ has_rating ratings c) curator_ids ->
   find_similar_curator ratings curator_ids cust_id = Return None).
Proof.
  intros Hcust Hrows. unfold find_similar_curator. rewrite Hcust.
  by apply curator_loop_absent.
Qed.

Lemma find_similar_curator_absent_customer_witness :
  (Exists (has_rating example_table) [1; 2] ->
   find_similar_curator example_table [1; 2] 99 = Raise TypeError) /\
  (Forall (fun c => ~ has_rating example_table c) [1; 2] ->
   find_similar_curator example_table [1; 2] 99 = Return None).
Proof.
  apply (find_similar_curator_absent_customer example_table [1; 2] 99).
  - reflexivity.
  - repeat (apply Forall_cons; split; [by eexists|]). by apply Forall_nil.
Defined.




(** ** Curators without a shared item; a customer who is a curator *)

Lemma curator_loop_skip {T} `{!RatingsTableOps T} (ratings : T) (cust_id : Z)
    (cust_rating : row) (cs : list Z) (mc : option Z) (md : option Q) :
  get_all_ratings ratings cust_id = Some cust_rating ->
  Forall (has_row ratings cust_rating) cs ->
  curator_loop ratings cs (Some cust_rating) mc md =
  curator_loop ratings (filter (fun c => shared ratings cust_id c ≠ []) cs)
    (Some cust_rating) mc md.
Proof.
  intros Hcust Hrows. revert mc md.
  induction Hrows as [|c cs (r & Hr & Hlen) Hrows IH]; intros mc md; [done|].
  assert (HD : shared ratings cust_id c = abs_diffs r cust_rating).
  { unfold shared. by rewrite Hr, Hcust. }
  assert (Hstep : forall cs',
    curator_loop ratings (c :: cs') (Some cust_rating) mc md =
    if bool_decide (Z.of_nat (length (shared ratings cust_id c)) ≠ 0) then
      let diff := Qmake (sum_scores (shared ratings cust_id c))
                    (Z.to_pos (Z.of_nat (length (shared ratings cust_id c)))) in
      if float_lt diff md
      then curator_loop ratings cs' (Some cust_rating) (Some c) (Some diff)
      else curator_loop ratings cs' (Some cust_rating) mc md
    else curator_loop ratings cs' (Some cust_rating) mc md).
  { intros cs'. cbn [curator_loop]. rewrite Hr.
    rewrite rating_loop_shared by (simpl; lia). simpl.
    by rewrite drop_0, !Z.add_0_l, <- HD. }
  destruct (decide (shared ratings cust_id c = [])) as [Hnil|Hne].
  - rewrite filter_cons_False by (intros Hne; by apply Hne).
    rewrite Hstep, Hnil. simpl. apply IH.
  - rewrite filter_cons_True by done. rewrite !Hstep.
    case_bool_decide; [|apply IH]. simpl. destruct (float_lt _ md); apply IH.
Qed.

(** X3: a curator who shares no rated item with the customer is skipped
    entirely: the matcher returns the same answer on the list of curators
    as on that list without the curators that share nothing. *)
Theorem find_similar_curator_skips_no_overlap {T} `{!RatingsTableOps T}
    (ratings : T) (curator_ids : list Z) (cust_id : Z) :
  table_ok ratings curator_ids cust_id = true ->
  find_similar_curator ratings curator_ids cust_id =
  find_similar_curator ratings
    (filter (fun c => shared ratings cust_id c ≠ []) curator_ids) cust_id.
Proof.
  intros (cust_rating & Hcust & Hrows)%table_ok_rows.
  unfold find_similar_curator. rewrite Hcust.
  by apply curator_loop_skip.
Qed.

Lemma find_similar_curator_skips_no_overlap_witness :
  find_similar_curator example_table [4; 2; 1] 5 =
  find_similar_curator example_table
    (filter (fun c => shared example_table 5 c ≠ []) [4; 2; 1]) 5.
Proof.
  apply (find_similar_curator_skips_no_overlap example_table [4; 2; 1] 5).
  reflexivity.
Defined.








(** ** What a call of [recommend_generic] can do, whatever fails *)

(** Whatever statements fail, [recommend_generic] changes neither the tables
    nor the constraints and raises nothing; when it returns a list, [k] is
    not negative, the list is [generic_list], view [ratingAverage] was
    either not needed or not there, and is not there afterwards. *)
Lemma recommend_generic_returns (k : Z) (w : World) :
  wp (recommend_generic k)
     (fun o w' =>
        tables w' = tables w /\ constraints w' = constraints w /\
        (o = Return None \/ exists l, o = Return (Some l)) /\
        forall l, o = Return (Some l) ->
          l = generic_list k (tables w) /\ 0 ≤ k /\
          (Z.of_nat (length (PopularItems (tables w))) ≤ k \/
           "ratingAverage" ∉ views w) /\
          views w' = views w ∖ {["ratingAverage"]}) w.
Proof.
  unfold recommend_generic, recommend_generic_body.
  match goal with |- wp _ ?Q0 _ => set (Post := Q0) end.
  assert (Hnone : forall w', tables w' = tables w -> constraints w' = constraints w ->
            Post (Return None) w').
  { intros w' Ht Hc. split; [done|]. split; [done|]. split; [by left|].
    by intros l [=]. }
  apply wp_try.
  repeat fault_step ltac:(by apply Hnone).
  destruct (decide (Z.of_nat (length (PopularItems (tables w))) ≤ k)) as [Hpop|Hpop].
  - rewrite bool_decide_eq_true_2 by done.
    repeat fault_step ltac:(by apply Hnone).
    split; [done|]. split; [done|]. split; [by right; eexists|]. intros l [= <-].
    unfold generic_list. rewrite bool_decide_eq_true_2 by done.
    split; [done|]. split; [lia|]. split; [by left|done].
  - rewrite bool_decide_eq_false_2 by done.
    repeat fault_step ltac:(by apply Hnone).
    unfold generic_select.
    repeat fault_step ltac:(by apply Hnone).
    assert (Hk : 0 ≤ k).
    { destruct (decide (k < 0)) as [Hneg|]; [|lia].
      match goal with H : min_of_first _ _ _ = Some _ |- _ =>
        unfold min_of_first in H; by rewrite bool_decide_eq_true_2 in H end. }
    match goal with H : min_of_first _ _ _ = Some _ |- _ =>
      rewrite min_of_first_pos in H by lia; injection H as <- end.
    repeat fault_step ltac:(by apply Hnone).
    pose proof (select_is_policy Qle k (ratingAverage (tables w))) as Hsel.
    case_bool_decide; repeat fault_step ltac:(by apply Hnone);
      (split; [done|]); (split; [done|]); (split; [by right; eexists|]);
      intros l [= <-]; rewrite Hsel;
      unfold generic_list; rewrite bool_decide_eq_false_2 by done;
      (split; [done|]); (split; [done|]); (split; [by right|set_solver]).
Qed.

(** ** The selection keeps the best *)

Lemma StronglySorted_filter {A} (R : relation A) (P : A -> Prop)
    `{!forall x, Decision (P x)} (l : list A) :
  StronglySorted R l -> StronglySorted R (filter P l).
Proof.
  induction 1 as [|x l Hl IH Hx]; [constructor|].
  destruct (decide (P x)).
  - rewrite filter_cons_True by done. constructor; [done|].
    rewrite Forall_forall in Hx. apply Forall_forall.
    intros y [_ Hy]%list_elem_of_filter. by apply Hx.
  - by rewrite filter_cons_False.
Qed.

Lemma StronglySorted_weaken {A} (R R' : relation A) (l : list A) :
  (forall x y, R x y -> R' x y) -> StronglySorted R l -> StronglySorted R' l.
Proof.
  intros Himpl. induction 1 as [|x l Hl IH Hx]; constructor; [done|].
  eapply Forall_impl; [exact Hx|]. auto.
Qed.

Section Best.
Context {Score : Type} (le : relation Score) `{!forall x y, Decision (le x y)}.
Context `{!Total le} `{!Transitive le}.

#[export] Instance by_score_iid_transitive : Transitive (by_score_iid le).
Proof.
  intros x y z [Hyx Hxy] [Hzy Hyz]. split; [by etrans|].
  intros Hxz. etrans; [apply Hxy|apply Hyz]; by etrans.
Qed.

(** The policy splits the candidates into the chosen and the rest: every
    chosen entry comes before every entry left out in the order by score
    descending, then item ID ascending; and the chosen entries are in
    descending order of score when the candidates are. *)
Lemma top_k_policy_best (k : Z) (ranked : list (Z * Score)) :
  exists chosen rest, chosen ++ rest ≡ₚ ranked /\
    top_k_policy le k ranked = chosen.*1 /\
    (forall x y, x ∈ chosen -> y ∈ rest -> by_score_iid le x y) /\
    (Sorted (by_score le) ranked -> Sorted (by_score le) chosen).
Proof.
  unfold top_k_policy.
  case_bool_decide as Hlen.
  { exists ranked, []. rewrite app_nil_r. split; [done|]. split; [done|].
    split; [|done]. intros x y _ Hy. by apply elem_of_nil in Hy. }
  case_bool_decide as Hcount.
  - exists (qualifying le k ranked),
      (filter (fun r => ~ at_least le (boundary le k ranked) r) ranked).
    split; [apply filter_app_complement|]. split; [done|]. split.
    + intros x y [Hx _]%list_elem_of_filter [Hy _]%list_elem_of_filter.
      destruct (boundary le k ranked) as [m|]; simpl in *; [|done].
      assert (Hym : le y.2 m) by (by destruct (total le y.2 m)).
      split; [by etrans|]. intros Hxy. destruct Hy. by etrans.
    + intros Hsorted. apply StronglySorted_Sorted, StronglySorted_filter.
      apply Sorted_StronglySorted; [apply _|done].
  - set (ordered := merge_sort (by_score_iid le) ranked).
    assert (Hss : StronglySorted (by_score_iid le) ordered).
    { apply Sorted_StronglySorted; [apply _|]. apply Sorted_merge_sort, _. }
    exists (take (Z.to_nat k) ordered), (drop (Z.to_nat k) ordered).
    split; [rewrite take_drop; apply merge_sort_Permutation|]. split; [done|].
    rewrite <- (take_drop (Z.to_nat k) ordered) in Hss. split.
    + intros x y Hx Hy. by apply (StronglySorted_app_1_elem_of _ _ _ x y Hss).
    + intros _. apply StronglySorted_Sorted.
      apply (StronglySorted_weaken (by_score_iid le)); [by intros x y [Hyx _]|].
      by apply StronglySorted_app_1_l in Hss.
Qed.
End Best.

(** [recommend_generic] where no statement fails, for any [k] that is not
    negative, and with view [ratingAverage] there when it is not needed. *)
Lemma recommend_generic_calm (k : Z) (w : World) :
  0 ≤ k -> quiet w ->
  Z.of_nat (length (PopularItems (tables w))) ≤ k \/ "ratingAverage" ∉ views w ->
  wp (recommend_generic k)
     (fun o w' => o = Return (Some (generic_list k (tables w))) /\ quiet w') w.
Proof.
  intros Hk Hq Hfresh. unfold recommend_generic, recommend_generic_body, generic_list.
  wp_step. wp_step. wp_step; [no_fault Hq|intros _].
  wp_step. case_bool_decide as Hpop.
  - wp_step; [no_fault Hq|intros _].
    wp_step. wp_step; [no_fault Hq|intros _]. by wp_step.
  - destruct Hfresh as [|Hfresh]; [done|].
    wp_step. wp_step; [no_fault Hq; set_solver|intros _ _].
    wp_step. wp_step; [no_fault Hq|intros _].
    eapply wp_mono; [|apply generic_select_quiet; [lia|done]].
    intros o w' (-> & Ht & Hv & Hq'). world_simpl.
    wp_step. wp_step; [no_fault Hq'|intros _]. by wp_step.
Qed.

(** X5: with more popular items than [k] and no statement failing,
    [recommend_generic] returns the items of the best averages: the ranked
    averages split into the chosen rows, whose items are returned in this
    order, and the rest, so that no row left out has a higher average than
    a chosen one, a row left out with the same average as a chosen one has
    the larger item ID, and the chosen rows are in descending order of
    average. *)
Theorem recommend_generic_keeps_best (k : Z) (w : World) :
  0 < k -> quiet w -> "ratingAverage" ∉ views w ->
  k < Z.of_nat (length (PopularItems (tables w))) ->
  exists chosen rest,
    chosen ++ rest ≡ₚ ratingAverage (tables w) /\
    result_of (recommend_generic k) w = Return (Some chosen.*1) /\
    (forall x y, x ∈ chosen -> y ∈ rest ->
       (y.2 <= x.2)%Q /\ ((x.2 <= y.2)%Q -> x.1 ≤ y.1)) /\
    Sorted (fun x y => (y.2 <= x.2)%Q) chosen.
Proof.
  intros Hk Hq Hfresh Hmany.
  destruct (recommend_generic_calm k w) as [Hres _]; [lia|done|by right|].
  destruct (top_k_policy_best Qle k (ratingAverage (tables w)))
    as (chosen & rest & Hperm & Hsel & Hbest & Hsorted).
  exists chosen, rest. split; [done|]. split; [|split; [exact Hbest|]].
  - unfold result_of. rewrite Hres. unfold generic_list.
    rewrite bool_decide_eq_false_2 by lia. by rewrite Hsel.
  - apply Hsorted. apply Sorted_merge_sort, _.
Qed.

Lemma recommend_generic_keeps_best_witness :
  exists chosen rest,
    chosen ++ rest ≡ₚ ratingAverage (tables shop_session) /\
    result_of (recommend_generic 1) shop_session = Return (Some chosen.*1) /\
    (forall x y, x ∈ chosen -> y ∈ rest ->
       (y.2 <= x.2)%Q /\ ((x.2 <= y.2)%Q -> x.1 ≤ y.1)) /\
    Sorted (fun x y => (y.2 <= x.2)%Q) chosen.
Proof.
  apply (recommend_generic_keeps_best 1 shop_session).
  - lia.
  - intros n. reflexivity.
  - vm_compute. set_solver.
  - vm_compute. reflexivity.
Defined.

Lemma fst_fmap_pair {A B} (f : A -> B) (l : list A) :
  ((fun i => (i, f i)) <$> l).*1 = l.
Proof. induction l as [|x l IH]; [done|]. csimpl. by rewrite IH. Qed.

(** The items of the averaged view: each once, each a listed item with a
    review. *)
Lemma averages_of_items (items : list Z) (reviews : list (Z * Z * Z)) :
  (averages_of items reviews).*1 ≡ₚ remove_dups (iid <$> reviews_of items reviews).
Proof.
  unfold averages_of. rewrite merge_sort_Permutation. by rewrite fst_fmap_pair.
Qed.

Lemma selection_items {Score} (le : relation Score) `{!forall x y, Decision (le x y)}
    `{!Total le} `{!Transitive le} (k : Z) (ranked : list (Z * Score)) :
  (forall i, i ∈ top_k_policy le k ranked -> i ∈ ranked.*1) /\
  (NoDup ranked.*1 -> NoDup (top_k_policy le k ranked)).
Proof.
  destruct (top_k_policy_best le k ranked) as (chosen & rest & Hperm & -> & _).
  split.
  - intros i Hi. rewrite <- Hperm, fmap_app. apply elem_of_app. by left.
  - rewrite <- Hperm, fmap_app. by intros [Hnd _]%NoDup_app.
Qed.

(** The list of [recommend_generic] holds popular items only. *)
Lemma generic_list_popular (k : Z) (t : Tables) :
  (forall i, i ∈ generic_list k t -> i ∈ PopularItems t) /\
  (NoDup (PopularItems t) -> NoDup (generic_list k t)) /\
  (k < Z.of_nat (length (PopularItems t)) ->
   NoDup (generic_list k t) /\
   forall i, i ∈ generic_list k t -> exists r, r ∈ Review t /\ iid r = i).
Proof.
  unfold generic_list.
  destruct (selection_items Qle k (ratingAverage t)) as [Hin Hnd].
  assert (Hrated : forall i, i ∈ (ratingAverage t).*1 ->
            i ∈ PopularItems t /\ exists r, r ∈ Review t /\ iid r = i).
  { intros i. unfold ratingAverage. rewrite averages_of_items.
    intros (r & -> & [Hr Hi]%elem_of_reviews_of)%elem_of_remove_dups%list_elem_of_fmap.
    split; [done|]. by exists r. }
  assert (Hnd' : NoDup (top_k_policy Qle k (ratingAverage t))).
  { apply Hnd. unfold ratingAverage. rewrite averages_of_items.
    apply NoDup_remove_dups. }
  case_bool_decide as Hpop.
  - split; [done|]. split; [done|]. lia.
  - split; [|split; [done|]].
    + intros i Hi. by apply Hrated, Hin.
    + intros _. split; [done|]. intros i Hi. by apply Hrated, Hin.
Qed.

(** X6: whatever statements fail, a list returned by [recommend_generic]
    holds popular items only, none of them twice when table [PopularItems]
    holds none twice; with more than [k] popular items every item returned
    has a review and none is returned twice. *)
Theorem recommend_generic_popular_only (k : Z) (w : World) (l : list Z) :
  result_of (recommend_generic k) w = Return (Some l) ->
  (forall i, i ∈ l -> i ∈ PopularItems (tables w)) /\
  (NoDup (PopularItems (tables w)) -> NoDup l) /\
  (k < Z.of_nat (length (PopularItems (tables w))) ->
   NoDup l /\ forall i, i ∈ l -> exists r, r ∈ Review (tables w) /\ iid r = i).
Proof.
  intros Hres.
  destruct (recommend_generic_returns k w) as (_ & _ & _ & Hlist).
  destruct (Hlist l Hres) as (-> & _). apply generic_list_popular.
Qed.

Lemma recommend_generic_popular_only_witness :
  (forall i, i ∈ [2] -> i ∈ PopularItems (tables shop_session)) /\
  (NoDup (PopularItems (tables shop_session)) -> NoDup [2]) /\
  (1 < Z.of_nat (length (PopularItems (tables shop_session))) ->
   NoDup [2] /\
   forall i, i ∈ [2] -> exists r, r ∈ Review (tables shop_session) /\ iid r = i).
Proof.
  apply (recommend_generic_popular_only 1 shop_session [2]).
  vm_compute. reflexivity.
Defined.

(** X7: whatever statements fail, [recommend_generic] raises nothing and
    changes neither the tables nor the constraints; and when it returns a
    list, view [ratingAverage] is not there afterwards and the other views
    are as before. *)
Theorem recommend_generic_read_only (k : Z) (w : World) :
  let r := run (recommend_generic k) w in
  tables r.2 = tables w /\ constraints r.2 = constraints w /\
  (r.1 = Return None \/
   exists l, r.1 = Return (Some l) /\ views r.2 = views w ∖ {["ratingAverage"]}).
Proof.
  intros r.
  destruct (recommend_generic_returns k w) as (Ht & Hc & Hres & Hlist).
  split; [done|]. split; [done|].
  destruct Hres as [Hnone|[l Hl]]; [by left|right].
  exists l. split; [done|]. by destruct (Hlist l Hl) as (_ & _ & _ & Hv).
Qed.

(** X8: a negative [k] never gives a list: the server rejects the negative
    [LIMIT], and [recommend_generic] returns [None] in any session. *)
Theorem recommend_generic_negative (k : Z) (w : World) :
  k < 0 -> result_of (recommend_generic k) w = Return None.
Proof.
  intros Hk.
  destruct (recommend_generic_returns k w) as (_ & _ & Hres & Hlist).
  destruct Hres as [Hnone|[l Hl]]; [done|].
  destruct (Hlist l Hl) as (_ & Hk' & _). lia.
Qed.

Lemma recommend_generic_negative_witness :
  result_of (recommend_generic (-1)) shop_session = Return None.
Proof. apply (recommend_generic_negative (-1) shop_session). lia. Defined.

(** X9: for [k = 0] and no statement failing, [recommend_generic] returns
    the empty list, not [None]. *)
Theorem recommend_generic_zero (w : World) :
  quiet w -> "ratingAverage" ∉ views w ->
  result_of (recommend_generic 0) w = Return (Some []).
Proof.
  intros Hq Hfresh.
  destruct (recommend_generic_calm 0 w) as [Hres _]; [lia|done|by right|].
  unfold result_of. rewrite Hres. do 2 f_equal. unfold generic_list.
  case_bool_decide as Hpop.
  - destruct (PopularItems (tables w)); [done|]. simpl in Hpop. lia.
  - destruct (top_k_policy_length Qle 0 (ratingAverage (tables w))) as [Hlen _]; [lia|].
    destruct (top_k_policy Qle 0 _); [done|]. simpl in Hlen. lia.
Qed.

Lemma recommend_generic_zero_witness :
  result_of (recommend_generic 0) shop_session = Return (Some []).
Proof.
  apply (recommend_generic_zero shop_session).
  - intros n. reflexivity.
  - vm_compute. set_solver.
Defined.

(** ** What a call of [recommend] can do, whatever fails *)

Ltac raise_leaf Hnone e :=
  destruct e; [by apply Hnone|..];
  (split; [done|]; split; [done|]; split;
   [right; right; eexists; split; [reflexivity|]; split; [done|];
    split; [reflexivity|set_solver]
   |by intros ? [=]]).

Section RecommendReturns.
Context {T : Type} `{!RatingsTableOps T}.

(** Whatever statements fail, [recommend] changes neither the tables nor
    the constraints; it raises only what the ratings table or the matcher
    raise, then leaving view [custRating] behind; and when it returns a
    list, [k] is not negative, the list is [recommend_list], and the views
    are as before when none of the method's views was there. *)
Lemma recommend_returns (cust k : Z) (w : World) :
  wp (recommend cust k)
     (fun o w' =>
        tables w' = tables w /\ constraints w' = constraints w /\
        (o = Return None \/ (exists l, o = Return (Some l)) \/
         exists e, o = Raise e /\ e ≠ PgError /\
           similar_curator cust (tables w) = Raise e /\ "custRating" ∈ views w') /\
        forall l, o = Return (Some l) ->
          recommend_list cust k (tables w) = Return l /\ 0 ≤ k /\
          (fresh_views w -> views w' = views w)) w.
Proof.
  unfold recommend_list, similar_curator. cbv zeta.
  destruct (set_ratings _ (custRating cust (tables w))) as [tb|e] eqn:E1;
    cbn [mbind outcome_bind obind].
  2: { match goal with |- wp _ ?Q0 _ => set (Post := Q0) end.
       assert (Hnone : forall w', tables w' = tables w ->
                 constraints w' = constraints w -> Post (Return None) w').
       { intros w' Ht Hc. split; [done|]. split; [done|]. split; [by left|].
         by intros l [=]. }
       unfold recommend, recommend_body. apply wp_try.
       repeat fault_step ltac:(by apply Hnone).
       apply wp_lift. rewrite E1. raise_leaf Hnone e. }
  destruct (set_ratings tb _) as [tb'|e] eqn:E2; cbn [mbind outcome_bind obind].
  2: { match goal with |- wp _ ?Q0 _ => set (Post := Q0) end.
       assert (Hnone : forall w', tables w' = tables w ->
                 constraints w' = constraints w -> Post (Return None) w').
       { intros w' Ht Hc. split; [done|]. split; [done|]. split; [by left|].
         by intros l [=]. }
       unfold recommend, recommend_body. apply wp_try.
       repeat fault_step ltac:(by apply Hnone).
       apply wp_lift. rewrite E1.
       repeat fault_step ltac:(by apply Hnone).
       apply wp_lift. rewrite E2. raise_leaf Hnone e. }
  destruct (find_similar_curator tb' _ cust) as [curator|e] eqn:E3.
  2: { match goal with |- wp _ ?Q0 _ => set (Post := Q0) end.
       assert (Hnone : forall w', tables w' = tables w ->
                 constraints w' = constraints w -> Post (Return None) w').
       { intros w' Ht Hc. split; [done|]. split; [done|]. split; [by left|].
         by intros l [=]. }
       unfold recommend, recommend_body. apply wp_try.
       repeat fault_step ltac:(by apply Hnone).
       apply wp_lift. rewrite E1.
       repeat fault_step ltac:(by apply Hnone).
       apply wp_lift. rewrite E2.
       repeat fault_step ltac:(by apply Hnone).
       apply wp_lift. rewrite E3. raise_leaf Hnone e. }
  cbn [mbind outcome_bind obind].
  set (result := top_k_policy Z.le k (itemLeft cust curator (tables w))).
  match goal with |- wp _ ?Q0 _ => set (Post := Q0) end.
  assert (Hnone : forall w', tables w' = tables w ->
            constraints w' = constraints w -> Post (Return None) w').
  { intros w' Ht Hc. split; [done|]. split; [done|]. split; [by left|].
    by intros l [=]. }
  unfold recommend, recommend_body. apply wp_try.
  repeat fault_step ltac:(by apply Hnone). apply wp_lift. rewrite E1.
  repeat fault_step ltac:(by apply Hnone). apply wp_lift. rewrite E2.
  repeat fault_step ltac:(by apply Hnone). apply wp_lift. rewrite E3.
  repeat fault_step ltac:(by apply Hnone).
  unfold recommend_select.
  repeat fault_step ltac:(by apply Hnone).
  assert (Hk : 0 ≤ k).
  { destruct (decide (k < 0)) as [Hneg|]; [|lia].
    match goal with H : min_of_first _ _ _ = Some _ |- _ =>
      unfold min_of_first in H; by rewrite bool_decide_eq_true_2 in H end. }
  match goal with H : min_of_first _ _ _ = Some _ |- _ =>
    rewrite min_of_first_pos in H by lia; injection H as <- end.
  repeat fault_step ltac:(by apply Hnone).
  pose proof (select_is_policy Z.le k (itemLeft cust curator (tables w))) as Hsel.
  fold result in Hsel.
  assert (Hnum : forall l : list Z,
            bool_decide (Z.of_nat (length l) = 0) = bool_decide (l = [])).
  { intros l. apply bool_decide_ext. destruct l; simpl; [done|]. split; [lia|done]. }
  case_bool_decide as Hn; repeat fault_step ltac:(by apply Hnone);
    rewrite Hsel, Hnum.
  all: destruct (bool_decide (curator = None) || bool_decide (result = [])) eqn:Hcond.
  all: unfold drop_recommend_views; repeat fault_step ltac:(by apply Hnone).
  (* the generic recommendations *)
  1,3: (eapply wp_mono; [|apply recommend_generic_returns]);
    world_simpl; intros o w' (Ht & Hc & Hres & Hlist);
    (destruct Hres as [->|[l ->]]; [by apply Hnone|]);
    destruct (Hlist l eq_refl) as (-> & _ & _ & Hv);
    (split; [done|]); (split; [done|]); (split; [right; left; by eexists|]);
    intros ? [= <-]; unfold Post;
    (split; [done|]); (split; [done|]);
    intros (? & ? & ? & ? & ?); rewrite Hv; set_solver.
  (* the curator's own items *)
  all: (split; [done|]); (split; [done|]); (split; [right; left; by eexists|]);
    intros ? [= <-]; unfold Post; world_simpl; rewrite Hsel;
    (split; [done|]); (split; [done|]);
    intros (? & ? & ? & ? & ?); set_solver.
Qed.
End RecommendReturns.



Section RecommendItems.
Context {T : Type} `{!RatingsTableOps T}.


(** X11: whatever statements fail, [recommend] changes neither the tables
    nor the constraints.  It returns [None], or a list, the views then being
    as before when none of the method's views was there, or it raises what
    the ratings table or the matcher raised, never [pg.Error], and then
    leaves view [custRating] behind. *)
Theorem recommend_read_only (cust k : Z) (w : World) :
  let r := run (recommend cust k) w in
  tables r.2 = tables w /\ constraints r.2 = constraints w /\
  (r.1 = Return None \/
   (exists l, r.1 = Return (Some l) /\ (fresh_views w -> views r.2 = views w)) \/
   (exists e, r.1 = Raise e /\ e ≠ PgError /\
      similar_curator cust (tables w) = Raise e /\ "custRating" ∈ views r.2)).
Proof.
  intros r.
  destruct (recommend_returns cust k w) as (Ht & Hc & Hres & Hlist).
  split; [done|]. split; [done|].
  destruct Hres as [Hnone|[[l Hl]|Hraise]]; [by left|right; left|by right; right].
  exists l. split; [done|]. by destruct (Hlist l Hl) as (_ & _ & Hv).
Qed.

(** X12: with no statement failing, an exception of the ratings table or of
    the matcher is not caught: [recommend] raises it, and view [custRating]
    stays behind. *)
Theorem recommend_raises (cust k : Z) (w : World) (e : exn) :
  0 < k -> quiet w -> fresh_views w ->
  similar_curator cust (tables w) = Raise e -> e ≠ PgError ->
  result_of (recommend cust k) w = Raise e /\
  "custRating" ∈ views (run (recommend cust k) w).2.
Proof.
  intros Hk Hq Hfresh Hcur He.
  pose proof (recommend_body_quiet cust k w Hk Hq Hfresh) as Hbody.
  unfold wp in Hbody. rewrite Hcur in Hbody.
  assert (Hres : result_of (recommend cust k) w = Raise e).
  { unfold result_of, recommend. rewrite run_try_result, Hbody. by destruct e. }
  split; [done|].
  destruct (recommend_returns cust k w) as (_ & _ & Hcases & _).
  unfold result_of in Hres. rewrite Hres in Hcases.
  by destruct Hcases as [?|[[l ?]|(e' & _ & _ & _ & Hview)]].
Qed.
End RecommendItems.


Lemma recommend_raises_witness :
  result_of (recommend (T := SpecTable) 9 2) shop_session = Raise TypeError /\
  "custRating" ∈ views (run (recommend (T := SpecTable) 9 2) shop_session).2.
Proof.
  apply (recommend_raises (T := SpecTable) 9 2 shop_session TypeError).
  - lia.
  - intros n. reflexivity.
  - unfold fresh_views. vm_compute. repeat split; set_solver.
  - vm_compute. reflexivity.
  - discriminate.
Defined.

(** ** After a call that left a view behind *)

Section RecommendAgain.
Context {T : Type} `{!RatingsTableOps T}.

(** With view [custRating] there, [recommend] gets no further than its
    [CREATE VIEW custRating]. *)
Lemma recommend_view_exists (cust k : Z) (w : World) :
  "custRating" ∈ views w -> result_of (recommend cust k) w = Return None.
Proof.
  intros Hview.
  enough (Hwp : wp (recommend cust k) (fun o _ => o = Return None) w) by exact Hwp.
  unfold recommend, recommend_body. apply wp_try.
  do 4 fault_step ltac:(done). done.
Qed.

(** X13: a call of [recommend] that ends on a failed statement sent while
    view [custRating] exists spoils the session for the method: every later
    call of [recommend] in it returns [None], whoever the customer. *)
Theorem recommend_after_failure (cust k cust' k' : Z) (w : World) (text : string) :
  last_failed (run (recommend cust k) w).2 = Some text ->
  text ∈ after_custRating ->
  result_of (recommend cust' k') (run (recommend cust k) w).2 = Return None.
Proof.
  intros Hlast Hin. apply recommend_view_exists.
  destruct (recommend_failures cust k w) as (_ & _ & Hviews).
  by destruct (Hviews text Hlast) as (Hview & _); apply Hview.
Qed.

(** X14: so does a call of [recommend] that raised: the view it left behind
    makes every later call of [recommend] in the session return [None]. *)
Theorem recommend_after_exception (cust k cust' k' : Z) (w : World) (e : exn) :
  result_of (recommend cust k) w = Raise e ->
  result_of (recommend cust' k') (run (recommend cust k) w).2 = Return None.
Proof.
  intros Hres. apply recommend_view_exists.
  destruct (recommend_returns cust k w) as (_ & _ & Hcases & _).
  unfold result_of in Hres. rewrite Hres in Hcases.
  by destruct Hcases as [?|[[l ?]|(e' & _ & _ & _ & Hview)]].
Qed.
End RecommendAgain.

Lemma recommend_after_failure_witness :
  result_of (recommend (T := SpecTable) 7 1)
    (run (recommend (T := SpecTable) 8 1) (fail_at 5 shop_snapshot)).2 = Return None.
Proof.
  apply (recommend_after_failure (T := SpecTable) 8 1 7 1
           (fail_at 5 shop_snapshot) create_custIID).
  - vm_compute. reflexivity.
  - apply (bool_decide_unpack _). vm_compute. exact I.
Defined.

Lemma recommend_after_exception_witness :
  result_of (recommend (T := SpecTable) 8 1)
    (run (recommend (T := SpecTable) 9 2) shop_session).2 = Return None.
Proof.
  apply (recommend_after_exception (T := SpecTable) 9 2 8 1 shop_session TypeError).
  vm_compute. reflexivity.
Defined.

(** X15: with more than [k] popular items, [recommend_generic] returns
    [None] in any session where view [ratingAverage] is there already, as
    it is after a call that ended on a failed statement sent while the view
    existed. *)
Theorem recommend_generic_after_failure (k k' : Z) (w : World) (text : string) :
  last_failed (run (recommend_generic k) w).2 = Some text ->
  text ∈ after_ratingAverage ->
  k' < Z.of_nat (length (PopularItems (tables w))) ->
  result_of (recommend_generic k') (run (recommend_generic k) w).2 = Return None.
Proof.
  intros Hlast Hin Hmany.
  destruct (recommend_generic_failures k w) as (_ & _ & Hviews).
  destruct (Hviews text Hlast) as (_ & Hview). specialize (Hview Hin).
  destruct (recommend_generic_returns k w) as (Ht & _).
  destruct (recommend_generic_returns k' (run (recommend_generic k) w).2)
    as (_ & _ & Hres & Hlist).
  destruct Hres as [Hnone|[l Hl]]; [done|].
  destruct (Hlist l Hl) as (_ & _ & [Hfew|Hfresh] & _); [|done].
  rewrite Ht in Hfew. lia.
Qed.

Lemma recommend_generic_after_failure_witness :
  result_of (recommend_generic 2)
    (run (recommend_generic 1) (fail_at 5 shop_snapshot)).2 = Return None.
Proof.
  apply (recommend_generic_after_failure 1 2 (fail_at 5 shop_snapshot) first_average).
  - vm_compute. reflexivity.
  - apply (bool_decide_unpack _). vm_compute. exact I.
  - vm_compute. reflexivity.
Defined.

(** ** Before the first [repopulate] *)

Lemma custRating_no_popular (cust : Z) (t : Tables) :
  PopularItems t = [] -> custRating cust t = [].
Proof.
  unfold custRating. intros ->. induction (Review t) as [|r rs IH]; [done|].
  by rewrite bind_cons, IH.
Qed.

Section RecommendEmpty.
Context {T : Type} `{!RatingsTableOps T}.

(** X16: while the snapshot tables [PopularItems] and [DefinitiveRatings]
    are empty, as they are before the first [repopulate], and no statement
    fails, [recommend_generic] and [recommend] both return the empty list,
    whoever the customer and whatever table implementation is used. *)
Theorem recommend_before_repopulate (cust k : Z) (w : World) :
  0 < k -> quiet w -> fresh_views w ->
  PopularItems (tables w) = [] -> DefinitiveRatings (tables w) = [] ->
  result_of (recommend_generic k) w = Return (Some []) /\
  result_of (recommend cust k) w = Return (Some []).
Proof.
  intros Hk Hq Hfresh Hpop Hdef.
  assert (Hgen : result_of (recommend_generic k) w = Return (Some [])).
  { destruct (recommend_generic_quiet k w) as (Hres & _); [done..|apply Hfresh|].
    unfold result_of. rewrite Hres, Hpop.
    by rewrite bool_decide_eq_true_2 by (simpl; lia). }
  split; [done|].
  pose proof (recommend_body_quiet cust k w Hk Hq Hfresh) as Hbody.
  unfold wp in Hbody.
  assert (Hcur : similar_curator cust (tables w) = Return None).
  { unfold similar_curator, distinct_cids.
    by rewrite custRating_no_popular, Hdef by done. }
  rewrite Hcur in Hbody. cbv zeta in Hbody.
  rewrite (bool_decide_eq_true_2 (None = None)) in Hbody by done.
  cbn [orb] in Hbody.
  unfold result_of, recommend. rewrite run_try_result, Hbody.
  fold (result_of (recommend_generic k) w). by rewrite Hgen.
Qed.
End RecommendEmpty.

Lemma recommend_before_repopulate_witness :
  result_of (recommend_generic 2) (start shop) = Return (Some []) /\
  result_of (recommend (T := SpecTable) 7 2) (start shop) = Return (Some []).
Proof.
  apply (recommend_before_repopulate (T := SpecTable) 7 2 (start shop)).
  - lia.
  - intros n. reflexivity.
  - unfold fresh_views. vm_compute. repeat split; set_solver.
  - reflexivity.
  - reflexivity.
Defined.

(** ** The snapshot [repopulate] computes *)


#[export] Instance by_quantity_total : Total by_quantity.
Proof. intros x y. unfold by_quantity. lia. Qed.

#[export] Instance by_quantity_transitive : Transitive by_quantity.
Proof. intros x y z. unfold by_quantity. lia. Qed.

#[export] Instance by_iid_total : Total by_iid.
Proof. intros x y. unfold by_iid. lia. Qed.




(** ** What a call of [repopulate] can do *)

(** Whatever statements fail, [repopulate] leaves the tables other than the
    two snapshot tables as they were; when it returns 0 the views are as
    before the call. *)
Lemma repopulate_frame (w : World) :
  wp repopulate
     (fun o w' =>
        Review (tables w') = Review (tables w) /\
        Purchase (tables w') = Purchase (tables w) /\
        LineItem (tables w') = LineItem (tables w) /\
        Item (tables w') = Item (tables w) /\
        q3 (tables w') = q3 (tables w) /\
        faults w' = faults w /\
        (o = Return 0 -> views w' = views w)) w.
Proof.
  unfold repopulate, repopulate_body.
  match goal with |- wp _ ?Q0 _ => set (Post := Q0) end.
  assert (Hfail : forall w',
            Review (tables w') = Review (tables w) ->
            Purchase (tables w') = Purchase (tables w) ->
            LineItem (tables w') = LineItem (tables w) ->
            Item (tables w') = Item (tables w) ->
            q3 (tables w') = q3 (tables w) ->
            faults w' = faults w -> Post (Return (-1)) w').
  { intros w' ? ? ? ? ? ?. by repeat (split; [done|]). }
  apply wp_try.
  repeat fault_step ltac:(by apply Hfail).
  apply wp_execute; world_simpl.
  { intros _. by apply Hfail. }
  intros [] w1 _ [= <-]. world_simpl.
  repeat fault_step ltac:(by apply Hfail).
  repeat (split; [done|]). intros _. set_solver.
Qed.




Lemma elem_of_definitive (t : Tables) (r : Z * Z * Z) :
  r ∈ definitive t <-> r ∈ Review t /\ cid r ∈ q3 t /\ iid r ∈ PopularItems t.
Proof.
  unfold definitive. rewrite list_elem_of_bind. split.
  - intros (c & (r' & (p & Hr & Hp)%list_elem_of_bind & Hr')%list_elem_of_bind & Hc).
    case_bool_decide as Hjoin; [|by apply elem_of_nil in Hr].
    apply list_elem_of_singleton in Hr as ->. destruct Hjoin as [-> <-]. done.
  - intros (Hr & Hc & Hp). exists (cid r). split; [|done].
    apply list_elem_of_bind. exists r. split; [|done].
    apply list_elem_of_bind. exists (iid r). split; [|done].
    rewrite bool_decide_eq_true_2 by done. by left.
Qed.

(** X18: after a call of [repopulate] that returned 0, the rows of
    [DefinitiveRatings] are exactly the reviews that a curator of [q3] gave
    to an item now in [PopularItems]. *)
Theorem repopulate_definitive_ratings (w : World) (r : Z * Z * Z) :
  result_of repopulate w = Return 0 ->
  r ∈ DefinitiveRatings (tables (run repopulate w).2) <->
  r ∈ Review (tables w) /\ cid r ∈ q3 (tables w) /\
  iid r ∈ PopularItems (tables (run repopulate w).2).
Proof.
  intros Hres.
  destruct (repopulate_effect w) as (_ & _ & Hok).
  destruct (Hok Hres) as (_ & _ & _ & Hdef & _).
  destruct (repopulate_frame w) as (Hrev & _ & _ & _ & Hq3 & _).
  by rewrite Hdef, elem_of_definitive, Hrev, Hq3.
Qed.

Lemma repopulate_definitive_ratings_witness :
  (3, 2, 3) ∈ DefinitiveRatings (tables (run repopulate (start shop)).2) <->
  (3, 2, 3) ∈ Review (tables (start shop)) /\ cid (3, 2, 3) ∈ q3 (tables (start shop)) /\
  iid (3, 2, 3) ∈ PopularItems (tables (run repopulate (start shop)).2).
Proof.
  apply (repopulate_definitive_ratings (start shop) (3, 2, 3)).
  vm_compute. reflexivity.
Defined.

(** X19: whatever statements fail, [repopulate] returns 0 or -1 and raises
    nothing, and it changes no table other than [PopularItems] and
    [DefinitiveRatings]; when it returns 0 the views are as before. *)
Theorem repopulate_other_tables (w : World) :
  let r := run repopulate w in
  (r.1 = Return 0 /\ views r.2 = views w \/ r.1 = Return (-1)) /\
  Review (tables r.2) = Review (tables w) /\
  Purchase (tables r.2) = Purchase (tables w) /\
  LineItem (tables r.2) = LineItem (tables w) /\
  Item (tables r.2) = Item (tables w) /\
  q3 (tables r.2) = q3 (tables w).
Proof.
  intros r.
  destruct (repopulate_frame w) as (H1 & H2 & H3 & H4 & H5 & _ & Hv).
  destruct (repopulate_effect w) as (_ & Hres & _).
  split; [|done].
  destruct Hres as [Hok|Hfail]; [left|by right]. split; [done|]. by apply Hv.
Qed.

(** X20: [repopulate] succeeds once: after a call that returned 0, a call
    in any session whose constraints are among those left returns -1. *)
Theorem repopulate_once (w w2 : World) :
  result_of repopulate w = Return 0 ->
  constraints w2 ⊆ constraints (run repopulate w).2 ->
  result_of repopulate w2 = Return (-1).
Proof.
  intros Hres Hsub.
  destruct (repopulate_needs_constraint w Hres) as [_ Hgone].
  destruct (repopulate_effect w2) as (_ & Hres2 & Hok2).
  destruct Hres2 as [Hok|Hfail]; [|done].
  destruct (Hok2 Hok) as (Hin & _). destruct Hgone. by apply Hsub.
Qed.

Lemma repopulate_once_witness :
  result_of repopulate (run (recommend_generic 2) (run repopulate (start shop)).2).2
    = Return (-1).
Proof.
  apply (repopulate_once (start shop)
           (run (recommend_generic 2) (run repopulate (start shop)).2).2).
  - vm_compute. reflexivity.
  - vm_compute. set_solver.
Defined.



(** ** Calling again *)

Ltac either_branch :=
  lazymatch goal with |- wp (if ?b then _ else _) _ _ => destruct b end.

Lemma recommend_generic_faults (k : Z) (w : World) :
  wp (recommend_generic k) (fun _ w' => faults w' = faults w) w.
Proof.
  unfold recommend_generic, recommend_generic_body. apply wp_try.
  repeat fault_step ltac:(done).
  either_branch; repeat fault_step ltac:(done); [done|].
  unfold generic_select. repeat fault_step ltac:(done).
  either_branch; repeat fault_step ltac:(done); done.
Qed.

Section RecommendTwice.
Context {T : Type} `{!RatingsTableOps T}.

Lemma recommend_faults (cust k : Z) (w : World) :
  wp (recommend cust k) (fun _ w' => faults w' = faults w) w.
Proof.
  unfold recommend, recommend_body. apply wp_try.
  repeat fault_step ltac:(done).
  apply wp_lift. destruct (set_ratings _ _) as [tb|e]; [|by destruct e].
  repeat fault_step ltac:(done).
  apply wp_lift. destruct (set_ratings _ _) as [tb'|e]; [|by destruct e].
  repeat fault_step ltac:(done).
  apply wp_lift. destruct (find_similar_curator _ _ _) as [curator|e]; [|by destruct e].
  repeat fault_step ltac:(done).
  unfold recommend_select. repeat fault_step ltac:(done).
  either_branch; repeat fault_step ltac:(done).
  all: either_branch; unfold drop_recommend_views; repeat fault_step ltac:(done).
  all: try done.
  all: (eapply wp_mono; [|apply recommend_generic_faults]);
    by intros [[l|]|[]] w' Hf.
Qed.

(** What [recommend] returns where no statement fails. *)
Lemma recommend_quiet_value (cust k : Z) (w : World) :
  0 < k -> quiet w -> fresh_views w ->
  result_of (recommend cust k) w =
    match recommend_list cust k (tables w) with
    | Return l => Return (Some l)
    | Raise PgError => Return None
    | Raise e => Raise e
    end.
Proof.
  intros Hk Hq Hfresh.
  pose proof (recommend_body_quiet cust k w Hk Hq Hfresh) as Hbody.
  unfold wp in Hbody. unfold result_of, recommend, recommend_list.
  rewrite run_try_result.
  destruct (similar_curator cust (tables w)) as [curator|e];
    cbn [mbind outcome_bind obind]; [|rewrite Hbody; by destruct e].
  cbv zeta in Hbody.
  destruct (bool_decide (curator = None) || _).
  - rewrite Hbody.
    destruct (recommend_generic_calm k w) as [Hgen _];
      [lia|done|right; apply Hfresh|].
    unfold result_of. by rewrite Hgen.
  - destruct Hbody as [Hbody _]. by rewrite Hbody.
Qed.

(** X22: a call that returns a list does not disturb the next one.  In a
    session where no statement fails and none of the views of the methods
    is there, [recommend_generic] called twice in a row returns the same
    list twice, and a list returned by [recommend] is returned again by
    the same call made right after it. *)
Theorem recommend_again (cust k : Z) (w : World) (l : list Z) :
  0 < k -> quiet w -> fresh_views w ->
  result_of (recommend cust k) w = Return (Some l) ->
  result_of (recommend cust k) (run (recommend cust k) w).2 = Return (Some l) /\
  exists l', result_of (recommend_generic k) w = Return (Some l') /\
    result_of (recommend_generic k) (run (recommend_generic k) w).2 = Return (Some l').
Proof.
  intros Hk Hq Hfresh Hres. split.
  - destruct (recommend_returns cust k w) as (Ht & _ & _ & Hlist).
    destruct (Hlist l Hres) as (_ & _ & Hv). specialize (Hv Hfresh).
    pose proof (recommend_faults cust k w) as Hf. unfold wp in Hf.
    set (w1 := (run (recommend cust k) w).2) in *.
    assert (Hq1 : quiet w1) by (intros n; by rewrite Hf).
    assert (Hfresh1 : fresh_views w1) by (unfold fresh_views; by rewrite Hv).
    rewrite (recommend_quiet_value cust k w1 Hk Hq1 Hfresh1), Ht.
    by rewrite <- (recommend_quiet_value cust k w Hk Hq Hfresh).
  - destruct (recommend_generic_quiet k w Hk Hq) as (Hval & Ht & Hv & Hq1);
      [apply Hfresh|].
    destruct (recommend_generic_quiet k (run (recommend_generic k) w).2 Hk Hq1)
      as (Hval' & _); [rewrite Hv; apply Hfresh|].
    eexists. split; [exact Hval|]. unfold result_of. by rewrite Hval', Ht.
Qed.
End RecommendTwice.

Lemma recommend_again_witness :
  result_of (recommend (T := SpecTable) 8 1)
    (run (recommend (T := SpecTable) 8 1) shop_session).2 = Return (Some [1]) /\
  exists l', result_of (recommend_generic 1) shop_session = Return (Some l') /\
    result_of (recommend_generic 1) (run (recommend_generic 1) shop_session).2
      = Return (Some l').
Proof.
  apply (recommend_again (T := SpecTable) 8 1 shop_session [1]).
  - lia.
  - intros n. reflexivity.
  - unfold fresh_views. vm_compute. repeat split; set_solver.
  - vm_compute. reflexivity.
Defined.

(** X23: a negative [k] never gives a list from [recommend] either:
    whatever statements fail, it returns [None] or raises what the ratings
    table or the matcher raised. *)
Theorem recommend_negative {T} `{!RatingsTableOps T} (cust k : Z) (w : World) :
  k < 0 ->
  result_of (recommend cust k) w = Return None \/
  exists e, result_of (recommend cust k) w = Raise e /\ e ≠ PgError /\
    similar_curator cust (tables w) = Raise e.
Proof.
  intros Hk.
  destruct (recommend_returns cust k w) as (_ & _ & Hcases & Hlist).
  destruct Hcases as [Hnone|[[l Hl]|(e & He & Hne & Hcur & _)]].
  - by left.
  - destruct (Hlist l Hl) as (_ & Hk' & _). lia.
  - right. by exists e.
Qed.

Lemma recommend_negative_witness :
  result_of (recommend (T := SpecTable) 8 (-1)) shop_session = Return None \/
  exists e, result_of (recommend (T := SpecTable) 8 (-1)) shop_session = Raise e /\
    e ≠ PgError /\ similar_curator (T := SpecTable) 8 (tables shop_session) = Raise e.
Proof. apply (recommend_negative (T := SpecTable) 8 (-1) shop_session). lia. Defined.
